(** * The Qdrant adapter of llmagent ([llmagent/vector_store/qdrantdb.py])

    The adapter is glue between three collaborators it does not implement:
    the embedding provider, the Qdrant client and the logger.  The
    development keeps that shape.  The collaborators are the fields of a
    class ([Collaborators]); the adapter's methods are programs in a small
    state-and-exception monad whose state is the adapter object together
    with a journal of every call that leaves the adapter.  Statements about
    "which calls were made" are statements about the journal; statements
    about the store are statements about the client state, under the laws
    of the client they rely on, which are stated with the vocabulary of the
    statements.  An in-memory store that obeys those laws runs the methods
    on concrete inputs. *)

From Stdlib Require Import ZArith Lia.
From stdpp Require Import base option list strings gmap fin_maps.

Set Warnings "-clear-no-such-hyp".

Local Open Scope Z_scope.
Local Open Scope string_scope.
Local Open Scope list_scope.

(** ** Data of the Qdrant client library *)

(** [qdrant_client.http.models.Distance], a string-valued enumeration. *)
Inductive Distance := COSINE | EUCLID | DOT.

Definition Distance_value (d : Distance) : string :=
  match d with
  | COSINE => "Cosine"
  | EUCLID => "Euclid"
  | DOT => "Dot"
  end.

(** [CollectionStatus]: [GREEN] is the healthy one. *)
Inductive CollectionStatus := GREEN | YELLOW | RED.

#[global] Instance CollectionStatus_eq_dec : EqDecision CollectionStatus.
Proof. solve_decision. Defined.

#[global] Instance Distance_eq_dec : EqDecision Distance.
Proof. solve_decision. Defined.

(** [VectorParams(size=..., distance=...)]. *)
Record VectorParams := mkVectorParams {
  vp_size : Z;
  vp_distance : Distance
}.

(** [SearchParams(hnsw_ef=..., exact=...)]. *)
Record SearchParams := mkSearchParams {
  hnsw_ef : Z;
  sp_exact : bool
}.

(** What [client.get_collection] answers; the adapter reads these three
    fields ([status], [vectors_count] in [create_collection], and
    [points_count] in [clear_empty_collections]). *)
Record CollectionInfo := mkCollectionInfo {
  status : CollectionStatus;
  vectors_count : Z;
  points_count : Z
}.

(** One entry of [client.get_collections()]; the adapter reads [.name]. *)
Record CollectionDescription := mkCollectionDescription {
  cd_name : string
}.

(** [CollectionsResponse]: a model whose first (and only) field is the list
    of descriptions, which is what [list(resp)[0][1]] selects. *)
Record CollectionsResponse := mkCollectionsResponse {
  collections : list CollectionDescription
}.

(** Identifiers of stored points. *)
Definition PointId := string.

(** Modelled from the spec: [llmagent.mytypes.Document] is not part of the
    sources at hand.  The specification describes it as "a record with at
    least a text content field", stored as "content + any metadata
    fields". *)
Record Document := mkDocument {
  content : string;
  metadata : list (string * string)
}.

(** ** Exceptions *)

(** What a collaborator raises is opaque to the adapter and is carried
    through unchanged. *)
Definition ServiceError := string.

Inductive Exn :=
| ValueError (msg : string)
| AssertionError
| IndexError
| AttributeError
| TypeError
| ValidationError
| Propagated (e : ServiceError).

(** ** The collaborators *)

(** Values the adapter only passes along.  Vectors and scores are Python
    floats; the adapter never computes with them. *)
Class Domain := {
  Vector : Type;
  Score : Type;
  Payload : Type;
  Filter : Type
}.

Section Data.
Context {D : Domain}.

(** [ScoredPoint]: the adapter reads [.score] and [.payload], the latter
    being optional in the client library. *)
Record ScoredPoint := mkScoredPoint {
  sp_id : PointId;
  score : Score;
  payload : option Payload
}.

(** [Batch(ids=..., vectors=..., payloads=...)]; the adapter hands the
    documents themselves over as payloads. *)
Record Batch := mkBatch {
  ids : list PointId;
  vectors : list Vector;
  payloads : list Document
}.

(** Every call that leaves the adapter, in the order it is made.  A call
    is journalled when it is issued, whether or not it then raises. *)
Inductive Event :=
| EmbedCall (texts : list string)
| GetCollections
| GetCollection (name : string)
| RecreateCollection (name : string) (params : VectorParams)
| DeleteCollection (name : string)
| Upsert (name : string) (points : Batch)
| Search (name : string) (query_vector : Vector) (query_filter : Filter)
         (limit : Z) (search_params : SearchParams)
| LogWarningNoMatches (text : string)
| LogInfoCollection (info : CollectionInfo)
| LogInfoFound (n : nat) (scores : list Score)
| ShowIfDebug (doc_score_pairs : list (Document * Score)).

(** Calls that reach the embedding provider or the Qdrant client, as
    opposed to the local logger. *)
Definition is_network_call (e : Event) : bool :=
  match e with
  | EmbedCall _ | GetCollections | GetCollection _ | RecreateCollection _ _
  | DeleteCollection _ | Upsert _ _ | Search _ _ _ _ _ => true
  | LogWarningNoMatches _ | LogInfoCollection _ | LogInfoFound _ _
  | ShowIfDebug _ => false
  end.

(** Calls that reach the Qdrant client. *)
Definition is_client_call (e : Event) : bool :=
  match e with
  | EmbedCall _ => false
  | e' => is_network_call e'
  end.
End Data.

(** The collaborators themselves.  [Client] is the state of the store as
    the Qdrant client sees it.  Calls that read ([get_collections],
    [get_collection], [search]) observe that state; calls that write
    ([recreate_collection], [delete_collection], [upsert]) produce the next
    one.  Any of them may raise.  [settings_debug] is the process-wide
    [settings.debug] flag. *)
Class Collaborators {D : Domain} := {
  Client : Type;
  embedding_fn : list string -> ServiceError + list Vector;
  Filter_empty : Filter;
  Filter_from_json : string -> ServiceError + Filter;
  Document_of_payload : Payload -> option Document;
  content_hash : string -> PointId;
  settings_debug : bool;
  client_get_collections : Client -> ServiceError + CollectionsResponse;
  client_get_collection : string -> Client -> ServiceError + CollectionInfo;
  client_search :
    string -> Vector -> Filter -> Z -> SearchParams -> Client ->
    ServiceError + list (option ScoredPoint);
  client_recreate_collection :
    string -> VectorParams -> Client -> ServiceError + Client;
  client_delete_collection : string -> Client -> ServiceError + Client;
  client_upsert : string -> Batch -> Client -> ServiceError + Client
}.

(** ** The adapter object *)

(** [QdrantDBConfig].  [collection_name] is nullable; [distance] is typed
    [str] in the source and defaults to [Distance.COSINE], whose value is
    the string ["Cosine"]. *)
Record QdrantDBConfig := mkQdrantDBConfig {
  cloud : bool;
  url : string;
  collection_name : option string;
  storage_path : string;
  distance : string
}.

Definition default_config : QdrantDBConfig :=
  {| cloud := true;
     url := "https://644cabc3-4141-4734-91f2-0cc3176514d4.us-east-1-0.aws.cloud.qdrant.io:6333";
     collection_name := None;
     storage_path := ".qdrant/data";
     distance := Distance_value COSINE |}.

Section Adapter.
Context {D : Domain} {X : Collaborators}.

(** [self]: the configuration (mutated by [set_collection] and
    [create_collection]), the client with the store behind it, the
    embedding dimensionality captured at construction, and the journal of
    outgoing calls (not a field of the Python object: it is the record of
    what the object did). *)
Record QdrantDB := mkQdrantDB {
  config : QdrantDBConfig;
  client : Client;
  embedding_dim : Z;
  journal : list Event
}.

(** *** A state monad with exceptions

    A raised exception does not undo what the method already did to
    [self], so the state is returned on both outcomes. *)
Definition M (A : Type) : Type := QdrantDB -> (Exn + A) * QdrantDB.

Definition ret {A} (a : A) : M A := fun st => (inr a, st).

Definition raise {A} (e : Exn) : M A := fun st => (inl e, st).

Definition bind {A B} (m : M A) (k : A -> M B) : M B :=
  fun st =>
    match m st with
    | (inr a, st') => k a st'
    | (inl e, st') => (inl e, st')
    end.

Notation "x <- c1 ;; c2" := (bind c1 (fun x => c2))
  (at level 100, c1 at next level, right associativity).
Notation "c1 ;;; c2" := (bind c1 (fun _ => c2))
  (at level 100, right associativity).

(** State updates, named so that statements can mention them. *)
Definition with_collection_name (name : option string) (st : QdrantDB) : QdrantDB :=
  {| config := {| cloud := cloud (config st);
                  url := url (config st);
                  collection_name := name;
                  storage_path := storage_path (config st);
                  distance := distance (config st) |};
     client := client st;
     embedding_dim := embedding_dim st;
     journal := journal st |}.

Definition with_client (c : Client) (st : QdrantDB) : QdrantDB :=
  {| config := config st;
     client := c;
     embedding_dim := embedding_dim st;
     journal := journal st |}.

Definition journalled (e : Event) (st : QdrantDB) : QdrantDB :=
  {| config := config st;
     client := client st;
     embedding_dim := embedding_dim st;
     journal := journal st ++ [e] |}.

(** [self.config.collection_name = name]. *)
Definition assign_collection_name (name : string) : M unit :=
  fun st => (inr tt, with_collection_name (Some name) st).

Definition read_collection_name : M (option string) :=
  fun st => (inr (collection_name (config st)), st).

Definition read_embedding_dim : M Z :=
  fun st => (inr (embedding_dim st), st).

Definition emit (e : Event) : M unit :=
  fun st => (inr tt, journalled e st).

(** A value a library function computed or failed to compute. *)
Definition lift_service {A} (r : ServiceError + A) : M A :=
  match r with
  | inr a => ret a
  | inl e => raise (Propagated e)
  end.

(** A reading call on the client: journalled, then answered from the
    current store. *)
Definition call_read {A} (e : Event) (f : Client -> ServiceError + A) : M A :=
  emit e ;;; (fun st => lift_service (f (client st)) st).

(** A writing call on the client: journalled, then the store moves on
    when the call returns; a call that raises leaves the adapter with the
    store it had. *)
Definition call_write (e : Event) (f : Client -> ServiceError + Client) : M unit :=
  emit e ;;;
  (fun st =>
     match f (client st) with
     | inr c => (inr tt, with_client c st)
     | inl err => (inl (Propagated err), st)
     end).

(** [self.embedding_fn(texts)]. *)
Definition call_embedding_fn (texts : list string) : M (list Vector) :=
  emit (EmbedCall texts) ;;; lift_service (embedding_fn texts).

(** [assert cond]. *)
Definition assert (cond : bool) : M unit :=
  if cond then ret tt else raise AssertionError.

(** A list comprehension whose element expression may raise: the first
    failure aborts it. *)
Fixpoint comprehension {A B} (f : A -> Exn + B) (l : list A) : Exn + list B :=
  match l with
  | [] => inr []
  | a :: l' =>
      match f a with
      | inl e => inl e
      | inr b =>
          match comprehension f l' with
          | inl e => inl e
          | inr bs => inr (b :: bs)
          end
      end
  end.

Definition lift_exn {A} (r : Exn + A) : M A :=
  match r with
  | inr a => ret a
  | inl e => raise e
  end.

(** *** Methods inherited from [VectorStore] *)

(** Modelled from the spec: [VectorStore._unique_hash_id] lives in
    [llmagent/vector_store/base.py], which is not part of the sources at
    hand.  The specification says the identifier is "derivable
    deterministically from its content (a content hash)", "id =
    deterministic hash of content"; the hash function itself is the
    collaborator [content_hash]. *)
Definition _unique_hash_id (d : Document) : PointId :=
  content_hash (content d).

(** [VectorStore.show_if_debug] is inherited as well; the adapter calls
    it and ignores its result, so only the call is recorded. *)
Definition show_if_debug (doc_score_pairs : list (Document * Score)) : M unit :=
  emit (ShowIfDebug doc_score_pairs).

(** *** [QdrantDB.list_collections] *)
Definition list_collections : M (list string) :=
  colls <- call_read GetCollections client_get_collections ;;
  ret (cd_name <$> collections colls).

(** *** [QdrantDB.clear_empty_collections] *)

(** The body of [for name in coll_names], with [n_deletes] threaded. *)
Fixpoint clear_empty_loop (coll_names : list string) (n_deletes : Z) : M Z :=
  match coll_names with
  | [] => ret n_deletes
  | name :: rest =>
      info <- call_read (GetCollection name) (client_get_collection name) ;;
      if decide (points_count info = 0) then
        call_write (DeleteCollection name) (client_delete_collection name) ;;;
        clear_empty_loop rest (n_deletes + 1)
      else
        clear_empty_loop rest n_deletes
  end.

Definition clear_empty_collections : M Z :=
  coll_names <- list_collections ;;
  clear_empty_loop coll_names 0.

(** *** [QdrantDB.create_collection]

    Under [settings.debug] the collection info is logged at level INFO; the
    logger's level is raised for that one record and put back. *)
Definition create_collection (name : string) : M unit :=
  assign_collection_name name ;;;
  dim <- read_embedding_dim ;;
  call_write
    (RecreateCollection name {| vp_size := dim; vp_distance := COSINE |})
    (client_recreate_collection name {| vp_size := dim; vp_distance := COSINE |}) ;;;
  collection_info <- call_read (GetCollection name) (client_get_collection name) ;;
  assert (bool_decide (status collection_info = GREEN)) ;;;
  assert (bool_decide (vectors_count collection_info = 0)) ;;;
  if settings_debug then emit (LogInfoCollection collection_info) else ret tt.

(** *** [QdrantDB.set_collection] *)
Definition set_collection (name : string) : M unit :=
  assign_collection_name name ;;;
  names <- list_collections ;;
  if bool_decide (name ∈ names) then ret tt else create_collection name.

(** *** [QdrantDB.__init__], once the embedding model is resolved and the
    client is open: the collection is created only when the configuration
    names one. *)
Definition __init__ (cfg : QdrantDBConfig) (c : Client) (dims : Z) : (Exn + unit) * QdrantDB :=
  let st := {| config := cfg; client := c; embedding_dim := dims; journal := [] |} in
  match collection_name cfg with
  | Some name => create_collection name st
  | None => (inr tt, st)
  end.

(** *** [QdrantDB.delete_collection] *)
Definition delete_collection (name : string) : M unit :=
  call_write (DeleteCollection name) (client_delete_collection name).

(** *** [QdrantDB.add_documents] *)
Definition add_documents (documents : list Document) : M unit :=
  embedding_vecs <- call_embedding_fn (content <$> documents) ;;
  cname <- read_collection_name ;;
  match cname with
  | None => raise (ValueError "No collection name set, cannot ingest docs")
  | Some name =>
      let points :=
        {| ids := _unique_hash_id <$> documents;
           vectors := embedding_vecs;
           payloads := documents |} in
      call_write (Upsert name points) (client_upsert name points)
  end.

(** *** [QdrantDB.similar_texts_with_scores] *)

(** [match.score]: an attribute read, which raises on [None]. *)
Definition score_of (m : option ScoredPoint) : Exn + Score :=
  match m with
  | Some p => inr (score p)
  | None => inl AttributeError
  end.

(** The [Document] built from the keyword expansion of [match.payload]:
    the expansion raises on [None], the constructor raises on a payload
    that is not a document. *)
Definition document_of (p : ScoredPoint) : Exn + Document :=
  match payload p with
  | None => inl TypeError
  | Some pl =>
      match Document_of_payload pl with
      | Some d => inr d
      | None => inl ValidationError
      end
  end.

Definition search_params : SearchParams :=
  {| hnsw_ef := 128; sp_exact := false |}.

(** [Filter() if where is None else Filter.from_json(where)]. *)
Definition filter_of (where_ : option string) : ServiceError + Filter :=
  match where_ with
  | None => inr Filter_empty
  | Some w => Filter_from_json w
  end.

Definition similar_texts_with_scores
    (text : string) (k : Z) (where_ : option string) : M (list (Document * Score)) :=
  embeddings <- call_embedding_fn [text] ;;
  embedding <- match embeddings with
               | v :: _ => ret v
               | [] => raise IndexError
               end ;;
  filter_ <- lift_service (filter_of where_) ;;
  cname <- read_collection_name ;;
  match cname with
  | None => raise (ValueError "No collection name set, cannot search")
  | Some name =>
      search_result <-
        call_read (Search name embedding filter_ k search_params)
                  (client_search name embedding filter_ k search_params) ;;
      scores <- lift_exn (comprehension score_of search_result) ;;
      docs <- lift_exn (comprehension document_of (omap id search_result)) ;;
      if bool_decide (length docs = 0%nat) then
        emit (LogWarningNoMatches text) ;;;
        ret []
      else
        (if settings_debug then emit (LogInfoFound (length docs) scores) else ret tt) ;;;
        let doc_score_pairs := zip docs scores in
        show_if_debug doc_score_pairs ;;;
        ret doc_score_pairs
  end.
End Adapter.

Arguments QdrantDB {D X}.
Arguments M {D X} A.

(** ** The vocabulary of the statements

    The readings of the specification's phrases, and the laws of the
    client that some statements rely on. *)

Section Vocabulary.
Context {D : Domain} {X : Collaborators}.

(** The reading of "fails with a value error and performs no network
    call": the outcome is a [ValueError] and the journal has gained no
    call to the embedding provider or to the client. *)
Definition fails_without_network_call
    (st : QdrantDB) (r : (Exn + unit) * QdrantDB) : Prop :=
  (exists msg, r.1 = inl (ValueError msg)) /\
  filter is_network_call (journal r.2) = filter is_network_call (journal st).

(** The reading of "surfaces an explicit value error to the caller". *)
Definition surfaces_value_error {A} (r : (Exn + A) * QdrantDB) : Prop :=
  exists msg, r.1 = inl (ValueError msg).

(** What it means for a pair to come from a match. *)
Definition pair_of_match (m : ScoredPoint) (pr : Document * Score) : Prop :=
  document_of m = inr pr.1 /\ score m = pr.2.

(** The pair holds the document that the constructor builds from the
    payload the match carries, and the score of the match. *)
Definition pair_built_from_match (m : ScoredPoint) (pr : Document * Score) : Prop :=
  (exists pl, payload m = Some pl /\ Document_of_payload pl = Some pr.1)
  /\ score m = pr.2.

(** The client honours a limit that is not negative. *)
Definition search_respects_nonnegative_limit : Prop :=
  forall name v f limit sp (c : Client) result,
    0 <= limit ->
    client_search name v f limit sp c = inr result ->
    Z.of_nat (length result) <= limit.

(** The reading of "returns at most k pairs". *)
Definition at_most_k_pairs
    (k : Z) (r : (Exn + list (Document * Score)) * QdrantDB) : Prop :=
  forall pairs, r.1 = inr pairs -> Z.of_nat (length pairs) <= k.

(** The reading of "has healthy status and zero stored points": what the
    client reports for the collection. *)
Definition healthy_and_no_points (name : string) (c : Client) : Prop :=
  exists info,
    client_get_collection name c = inr info
    /\ status info = GREEN
    /\ points_count info = 0.

(** The names the client lists. *)
Definition names_of (c : Client) : list string :=
  match client_get_collections c with
  | inr colls => cd_name <$> collections colls
  | inl _ => []
  end.

(** The client reports the collection with a point count of zero. *)
Definition is_empty_in (c : Client) (name : string) : bool :=
  match client_get_collection name c with
  | inr info => bool_decide (points_count info = 0)
  | inl _ => false
  end.

Definition empties (c : Client) (names : list string) : list string :=
  filter (fun name => is_empty_in c name = true) names.

(** The calls of the sweep over [names], judged in the store [c]: every
    collection is looked up, and the empty ones are then deleted. *)
Fixpoint sweep_calls (c : Client) (names : list string) : list Event :=
  match names with
  | [] => []
  | name :: rest =>
      if is_empty_in c name
      then GetCollection name :: DeleteCollection name :: sweep_calls c rest
      else GetCollection name :: sweep_calls c rest
  end.

(** What the sweep relies on from the client: the listing answers, without
    repeating a name; a listed collection can be looked up and deleted;
    deleting a collection removes its name from the listing and changes
    nothing that can be observed of another collection. *)
Record StoreLaws : Prop := {
  listing_total : forall c,
    exists colls,
      client_get_collections c = inr colls
      /\ NoDup (cd_name <$> collections colls);
  info_total : forall c name,
    name ∈ names_of c -> exists info, client_get_collection name c = inr info;
  delete_total : forall c name,
    name ∈ names_of c -> exists c', client_delete_collection name c = inr c';
  delete_names : forall c name c',
    client_delete_collection name c = inr c' ->
    forall other, other ∈ names_of c' <-> other ∈ names_of c /\ other <> name;
  delete_frame_info : forall c name c',
    client_delete_collection name c = inr c' ->
    forall other, other <> name ->
      client_get_collection other c' = client_get_collection other c;
  delete_frame_search : forall c name c',
    client_delete_collection name c = inr c' ->
    forall other v f k sp, other <> name ->
      client_search other v f k sp c' = client_search other v f k sp c
}.

(** Nothing that can be observed of the collection differs between the two
    stores. *)
Definition untouched (name : string) (c c' : Client) : Prop :=
  client_get_collection name c' = client_get_collection name c
  /\ forall v f k sp,
       client_search name v f k sp c' = client_search name v f k sp c.

(** The client keeps points by identifier: a batch that is sent again with
    the same identifiers, and as many vectors and payloads, is accepted
    again and leaves the point count of the collection where it was. *)
Definition upsert_by_id : Prop :=
  forall (c c1 : Client) name (b1 b2 : Batch),
    ids b2 = ids b1 ->
    length (vectors b2) = length (vectors b1) ->
    length (payloads b2) = length (payloads b1) ->
    client_upsert name b1 c = inr c1 ->
    exists c2,
      client_upsert name b2 c1 = inr c2
      /\ forall info1,
           client_get_collection name c1 = inr info1 ->
           exists info2,
             client_get_collection name c2 = inr info2
             /\ points_count info2 = points_count info1.

(** Deletions among the calls. *)
Definition is_delete (e : Event) : bool :=
  match e with DeleteCollection _ => true | _ => false end.

Definition count_deletes (calls : list Event) : nat :=
  length (filter is_delete calls).

(** Every deletion among the calls comes right after the lookup of the
    same collection; [previous] is the call made just before [calls]. *)
Fixpoint deletes_follow_lookups (previous : option Event) (calls : list Event) : Prop :=
  match calls with
  | [] => True
  | e :: rest =>
      match e with
      | DeleteCollection name => previous = Some (GetCollection name)
      | _ => True
      end
      /\ deletes_follow_lookups (Some e) rest
  end.

(** The call is the lookup or the deletion of one of [names]. *)
Definition lookup_or_delete_of (names : list string) (e : Event) : Prop :=
  exists name,
    name ∈ names /\ (e = GetCollection name \/ e = DeleteCollection name).

(** The state a method leaves when it has only journalled [calls] and
    moved the store to [c]. *)
Definition after_calls (calls : list Event) (c : Client) (st : QdrantDB) : QdrantDB :=
  {| config := config st;
     client := c;
     embedding_dim := embedding_dim st;
     journal := journal st ++ calls |}.
End Vocabulary.

(** ** An in-memory store

    A small store with the behaviour the Qdrant documentation describes,
    used to run the adapter on concrete inputs: collections are kept by
    name, points by identifier, so that an upsert of a known identifier
    replaces the point.  Vectors are integer lists and the score is the dot
    product.  The embedding function, the way a collection is reported and
    the debug flag are left open, to build a provider that is down or a
    service whose reports are off. *)
Module Mem.

#[export] Instance domain : Domain :=
  {| Vector := list Z; Score := Z; Payload := Document; Filter := option string |}.

Record Collection := mkCollection {
  params : VectorParams;
  points : gmap string (list Z * Document)
}.

Abbreviation Store := (gmap string Collection).

Definition dot (u v : list Z) : Z := foldr Z.add 0 (zip_with Z.mul u v).

Definition hit (q : list Z) (entry : string * (list Z * Document)) : ScoredPoint :=
  {| sp_id := entry.1; score := dot q entry.2.1; payload := Some entry.2.2 |}.

Fixpoint insert_by_score (p : ScoredPoint) (l : list ScoredPoint) : list ScoredPoint :=
  match l with
  | [] => [p]
  | q :: l' =>
      if decide (score q < score p) then p :: q :: l'
      else q :: insert_by_score p l'
  end.

Definition best_first (l : list ScoredPoint) : list ScoredPoint :=
  foldr insert_by_score [] l.

Definition put_points (b : Batch) (pts : gmap string (list Z * Document))
    : gmap string (list Z * Document) :=
  foldl (fun m entry => <[entry.1 := entry.2]> m) pts
        (zip (ids b) (zip (vectors b) (payloads b))).

Definition get_collections (s : Store) : ServiceError + CollectionsResponse :=
  inr {| collections := (fun kv => {| cd_name := kv.1 |}) <$> map_to_list s |}.

Definition get_collection (report : Z -> CollectionInfo) (name : string) (s : Store)
    : ServiceError + CollectionInfo :=
  match s !! name with
  | Some c => inr (report (Z.of_nat (size (points c))))
  | None => inl "Not found: collection"
  end.

Definition search (name : string) (q : list Z) (f : option string) (limit : Z)
    (sp : SearchParams) (s : Store) : ServiceError + list (option ScoredPoint) :=
  match s !! name with
  | Some c =>
      inr (Some <$> take (Z.to_nat limit)
                         (best_first (hit q <$> map_to_list (points c))))
  | None => inl "Not found: collection"
  end.

Definition recreate_collection (name : string) (vp : VectorParams) (s : Store)
    : ServiceError + Store :=
  inr (<[name := {| params := vp; points := ∅ |}]> s).

Definition drop_collection (name : string) (s : Store) : ServiceError + Store :=
  inr (delete name s).

Definition upsert (name : string) (b : Batch) (s : Store) : ServiceError + Store :=
  match s !! name with
  | Some c => inr (<[name := {| params := params c; points := put_points b (points c) |}]> s)
  | None => inl "Not found: collection"
  end.

Definition collaborators
    (embed : list string -> ServiceError + list (list Z))
    (report : Z -> CollectionInfo) (debug : bool) : Collaborators :=
  {| Client := Store;
     embedding_fn := embed;
     Filter_empty := None;
     Filter_from_json := fun w => inr (Some w);
     Document_of_payload := Some;
     content_hash := String.append "id-";
     settings_debug := debug;
     client_get_collections := get_collections;
     client_get_collection := get_collection report;
     client_search := search;
     client_recreate_collection := recreate_collection;
     client_delete_collection := drop_collection;
     client_upsert := upsert |}.

(** A two-dimensional embedding: the length of the text and a constant. *)
Definition embed (texts : list string) : ServiceError + list (list Z) :=
  inr ((fun t => [Z.of_nat (String.length t); 1]) <$> texts).

(** A provider that cannot be reached. *)
Definition embed_down (texts : list string) : ServiceError + list (list Z) :=
  inl "Connection error".

(** The report of a healthy service: one vector per point. *)
Definition report (n : Z) : CollectionInfo :=
  {| status := GREEN; vectors_count := n; points_count := n |}.

(** A service whose two counters disagree. *)
Definition report_skewed (n : Z) : CollectionInfo :=
  {| status := GREEN; vectors_count := n; points_count := n + 1 |}.

(** The healthy service, with the debug flag off. *)
Definition env : Collaborators := collaborators embed report false.

(** An adapter over a given store, with nothing journalled yet. *)
Definition adapter (embed : list string -> ServiceError + list (list Z))
    (report : Z -> CollectionInfo) (debug : bool)
    (cfg : QdrantDBConfig) (s : Store)
    : @QdrantDB domain (collaborators embed report debug) :=
  @mkQdrantDB domain (collaborators embed report debug) cfg s 2 [].

(** The same service with every writing call refused. *)
Definition read_only (embed : list string -> ServiceError + list (list Z))
    (report : Z -> CollectionInfo) (debug : bool) : Collaborators :=
  {| Client := Store;
     embedding_fn := embed;
     Filter_empty := None;
     Filter_from_json := fun w => inr (Some w);
     Document_of_payload := Some;
     content_hash := String.append "id-";
     settings_debug := debug;
     client_get_collections := get_collections;
     client_get_collection := get_collection report;
     client_search := search;
     client_recreate_collection := fun _ _ _ => inl "Forbidden";
     client_delete_collection := fun _ _ => inl "Forbidden";
     client_upsert := fun _ _ _ => inl "Forbidden" |}.

Definition adapter_read_only (cfg : QdrantDBConfig) (s : Store)
    : @QdrantDB domain (read_only embed report false) :=
  @mkQdrantDB domain (read_only embed report false) cfg s 2 [].

(** The healthy service behind a client whose search answers are given,
    to run the adapter on answers the store itself never produces. *)
Definition answering (embed : list string -> ServiceError + list (list Z))
    (answer : list (option ScoredPoint)) : Collaborators :=
  {| Client := Store;
     embedding_fn := embed;
     Filter_empty := None;
     Filter_from_json :=
       fun w => if decide (w = "") then inl "Invalid filter" else inr (Some w);
     Document_of_payload := Some;
     content_hash := String.append "id-";
     settings_debug := false;
     client_get_collections := get_collections;
     client_get_collection := get_collection report;
     client_search := fun _ _ _ _ _ _ => inr answer;
     client_recreate_collection := recreate_collection;
     client_delete_collection := drop_collection;
     client_upsert := upsert |}.

Definition adapter_answering (embed : list string -> ServiceError + list (list Z))
    (answer : list (option ScoredPoint)) (cfg : QdrantDBConfig) (s : Store)
    : @QdrantDB domain (answering embed answer) :=
  @mkQdrantDB domain (answering embed answer) cfg s 2 [].

(** Two answers a client may give: one with a hole in it, one with a
    match that carries no payload. *)
Definition hit_hello : ScoredPoint :=
  {| sp_id := "id-hello";
     score := 26;
     payload := Some {| content := "hello"; metadata := [] |} |}.

Definition hit_bare : ScoredPoint :=
  {| sp_id := "id-hi"; score := 11; payload := None |}.

Definition answer_with_none : list (option ScoredPoint) := [Some hit_hello; None].

Definition answer_with_bare : list (option ScoredPoint) :=
  [Some hit_hello; Some hit_bare].

(** An answer longer than a limit of one. *)
Definition answer_of_two : list (option ScoredPoint) :=
  [Some hit_hello;
   Some {| sp_id := "id-hi";
           score := 11;
           payload := Some {| content := "hi"; metadata := [] |} |}].

Definition named (name : string) : QdrantDBConfig :=
  {| cloud := false;
     url := url default_config;
     collection_name := Some name;
     storage_path := storage_path default_config;
     distance := distance default_config |}.

Definition doc (text : string) : Document :=
  {| content := text; metadata := [] |}.

(** A store with one collection holding one point, and the same store
    with an empty collection next to it. *)
Definition store_docs : Store :=
  {[ "docs" := {| params := {| vp_size := 2; vp_distance := COSINE |};
                  points := {[ "id-hello" := ([5; 1], doc "hello") ]} |} ]}.

Definition store_docs_scratch : Store :=
  <[ "scratch" := {| params := {| vp_size := 2; vp_distance := COSINE |};
                     points := ∅ |} ]> store_docs.

End Mem.

(** ** Running the methods *)

Ltac unfold_monad :=
  unfold call_read, call_write, call_embedding_fn, show_if_debug,
    assign_collection_name, read_collection_name, read_embedding_dim,
    emit, assert, lift_service, lift_exn, bind, ret, raise in *.

Ltac unfold_methods :=
  unfold set_collection, create_collection, add_documents,
    similar_texts_with_scores, clear_empty_collections, list_collections,
    delete_collection in *.

Ltac run_methods :=
  unfold_methods; unfold_monad; cbn;
  repeat (case_match; simplify_eq/=; try done).

Section Frames.
Context {D : Domain} {X : Collaborators}.

(** [create_collection] leaves the configuration with the name it was
    given, however it ends. *)
Lemma create_collection_config (name : string) (st : QdrantDB) :
  config (create_collection name st).2 = config (with_collection_name (Some name) st).
Proof. run_methods. Qed.

(** Its first outgoing call is the recreation, with the size captured at
    construction and the cosine distance. *)
Lemma create_collection_journal (name : string) (st : QdrantDB) :
  exists rest,
    journal (create_collection name st).2 =
    journal st
      ++ RecreateCollection name {| vp_size := embedding_dim st; vp_distance := COSINE |}
      :: rest.
Proof.
  run_methods; rewrite <- ?app_assoc; cbn; eexists; reflexivity.
Qed.

(** Ingestion and search never touch the configuration. *)
Lemma add_documents_config (documents : list Document) (st : QdrantDB) :
  config (add_documents documents st).2 = config st.
Proof. run_methods. Qed.

Lemma similar_texts_with_scores_config
    (text : string) (k : Z) (where_ : option string) (st : QdrantDB) :
  config (similar_texts_with_scores text k where_ st).2 = config st.
Proof. run_methods. Qed.
End Frames.

(** ** Calls made without an active collection *)

Section Unset.
Context {D : Domain} {X : Collaborators}.

Lemma filter_journalled (P : Event -> bool) (e : Event) (st : QdrantDB) :
  P e = false ->
  filter P (journal (journalled e st)) = filter P (journal st).
Proof.
  intros HP. cbn. rewrite filter_app, filter_cons_False, filter_nil.
  - apply app_nil_r.
  - rewrite HP. auto.
Qed.

(** The run of [add_documents] without a collection name: one call to the
    embedding provider, then the guard. *)
Lemma add_documents_unset_run (documents : list Document) (st : QdrantDB) :
  collection_name (config st) = None ->
  add_documents documents st =
    (match embedding_fn (content <$> documents) with
     | inr _ => inl (ValueError "No collection name set, cannot ingest docs")
     | inl e => inl (Propagated e)
     end,
     journalled (EmbedCall (content <$> documents)) st).
Proof.
  intros Hnone. unfold add_documents. unfold_monad. cbn.
  destruct (embedding_fn (content <$> documents)); cbn;
    rewrite ?Hnone; reflexivity.
Qed.

(** C1 (amended).  On an adapter with no collection name, [add_documents]
    makes exactly one outgoing call, to the embedding provider with the
    contents of the documents.  When that call returns the method raises
    [ValueError]; when it raises, its error is what the caller sees.  In
    both cases the store is the one the call started with and no call to
    the client (in particular no upsert) has been made. *)
Theorem add_documents_unset_collection
    (documents : list Document) (st : QdrantDB) :
  collection_name (config st) = None ->
  add_documents documents st =
    (match embedding_fn (content <$> documents) with
     | inr _ => inl (ValueError "No collection name set, cannot ingest docs")
     | inl e => inl (Propagated e)
     end,
     journalled (EmbedCall (content <$> documents)) st)
  /\ client (add_documents documents st).2 = client st
  /\ filter is_client_call (journal (add_documents documents st).2)
     = filter is_client_call (journal st).
Proof.
  intros Hnone. rewrite (add_documents_unset_run documents st Hnone).
  split; [reflexivity | split; [reflexivity |]].
  now apply filter_journalled.
Qed.

(** C7 (amended).  With no collection name set, both methods first call
    the embedding provider, once; search then takes the first embedding and
    builds the filter.  When these steps return, the method raises
    [ValueError], having made no other call: nothing is retried and the
    client is not contacted. *)
Theorem unset_collection_value_error (st : QdrantDB) :
  collection_name (config st) = None ->
  (forall documents vecs,
      embedding_fn (content <$> documents) = inr vecs ->
      add_documents documents st =
        (inl (ValueError "No collection name set, cannot ingest docs"),
         journalled (EmbedCall (content <$> documents)) st))
  /\
  (forall text k where_ v vs f,
      embedding_fn [text] = inr (v :: vs) ->
      filter_of where_ = inr f ->
      similar_texts_with_scores text k where_ st =
        (inl (ValueError "No collection name set, cannot search"),
         journalled (EmbedCall [text]) st)).
Proof.
  intros Hnone. split.
  - intros documents vecs Hemb.
    rewrite (add_documents_unset_run documents st Hnone), Hemb. reflexivity.
  - intros text k where_ v vs f Hemb Hfilter.
    unfold similar_texts_with_scores. unfold_monad. cbn.
    rewrite Hemb. cbn. rewrite Hfilter. cbn. rewrite Hnone. reflexivity.
Qed.
End Unset.

(** C1, as worded, fails on the in-memory store: the value error is
    raised, but the embedding provider has been called by then. *)
Lemma add_documents_unset_calls_embedding :
  let st := Mem.adapter Mem.embed Mem.report false default_config ∅ in
  ~ fails_without_network_call st (add_documents [Mem.doc "hello"] st)
  /\ journal (add_documents [Mem.doc "hello"] st).2 = [EmbedCall ["hello"]].
Proof.
  cbn zeta. split; [| reflexivity].
  intros [_ Hcalls]. vm_compute in Hcalls. discriminate Hcalls.
Qed.

Lemma add_documents_unset_collection_witness :
  let st := Mem.adapter Mem.embed Mem.report false default_config ∅ in
  collection_name (config st) = None
  /\ add_documents [Mem.doc "hello"] st =
       (inl (ValueError "No collection name set, cannot ingest docs"),
        journalled (EmbedCall ["hello"]) st)
  /\ client (add_documents [Mem.doc "hello"] st).2 = client st
  /\ filter is_client_call (journal (add_documents [Mem.doc "hello"] st).2)
     = filter is_client_call (journal st).
Proof.
  split; [reflexivity |].
  exact (add_documents_unset_collection
           [Mem.doc "hello"]
           (Mem.adapter Mem.embed Mem.report false default_config ∅)
           eq_refl).
Defined.

(** C7, as worded, fails when the embedding provider is down: the error
    the caller sees is the provider's, for ingestion and for search. *)
Lemma unset_collection_provider_error :
  let st := Mem.adapter Mem.embed_down Mem.report false default_config ∅ in
  ~ surfaces_value_error (add_documents [Mem.doc "hello"] st)
  /\ ~ surfaces_value_error (similar_texts_with_scores "hello" 1 None st)
  /\ (add_documents [Mem.doc "hello"] st).1 = inl (Propagated "Connection error").
Proof.
  cbn zeta. repeat split.
  - intros [msg Hmsg]. vm_compute in Hmsg. discriminate Hmsg.
  - intros [msg Hmsg]. vm_compute in Hmsg. discriminate Hmsg.
Qed.

Lemma unset_collection_value_error_witness :
  let st := Mem.adapter Mem.embed Mem.report false default_config ∅ in
  collection_name (config st) = None
  /\ add_documents [Mem.doc "hello"] st =
       (inl (ValueError "No collection name set, cannot ingest docs"),
        journalled (EmbedCall ["hello"]) st)
  /\ similar_texts_with_scores "hello" 1 None st =
       (inl (ValueError "No collection name set, cannot search"),
        journalled (EmbedCall ["hello"]) st).
Proof.
  cbn zeta.
  destruct (unset_collection_value_error
              (Mem.adapter Mem.embed Mem.report false default_config ∅)
              eq_refl) as [Hingest Hsearch].
  split; [reflexivity | split].
  - exact (Hingest [Mem.doc "hello"] [[5; 1]] eq_refl).
  - exact (Hsearch "hello" 1 None [5; 1] [] None eq_refl eq_refl).
Defined.

(** ** Collection lifecycle *)

Section Lifecycle.
Context {D : Domain} {X : Collaborators}.


(** C8.  [set_collection name] records [name] as the active collection,
    however it ends.  It lists the collections once.  When [name] is
    listed, that listing is the only outgoing call: nothing is recreated
    and the store is the one the call started with.  When [name] is not
    listed, the call continues as [create_collection name]: the next call
    is the recreation of [name], with the size captured at construction;
    once that call has returned, the store is the one it produced, and the
    method returns when the client then reports the collection green with
    a vectors count of zero. *)
Theorem set_collection_creates_if_absent (name : string) (st : QdrantDB) :
  collection_name (config (set_collection name st).2) = Some name
  /\ forall colls,
       client_get_collections (client st) = inr colls ->
       (name ∈ cd_name <$> collections colls ->
          set_collection name st =
            (inr tt, journalled GetCollections (with_collection_name (Some name) st))
          /\ client (set_collection name st).2 = client st)
       /\ (name ∉ cd_name <$> collections colls ->
          set_collection name st =
            create_collection name
              (journalled GetCollections (with_collection_name (Some name) st))
          /\ (exists rest,
                journal (set_collection name st).2 =
                journal st
                  ++ GetCollections
                  :: RecreateCollection name
                       {| vp_size := embedding_dim st; vp_distance := COSINE |}
                  :: rest)
          /\ (forall c,
                client_recreate_collection name
                  {| vp_size := embedding_dim st; vp_distance := COSINE |}
                  (client st) = inr c ->
                client (set_collection name st).2 = c
                /\ forall info,
                     client_get_collection name c = inr info ->
                     status info = GREEN ->
                     vectors_count info = 0 ->
                     (set_collection name st).1 = inr tt)).
Proof.
  assert (Hrun : forall colls,
    client_get_collections (client st) = inr colls ->
    set_collection name st =
      if bool_decide (name ∈ cd_name <$> collections colls)
      then (inr tt, journalled GetCollections (with_collection_name (Some name) st))
      else create_collection name
             (journalled GetCollections (with_collection_name (Some name) st))).
  { intros colls Hcolls. unfold set_collection, list_collections at 1.
    unfold_monad. cbn. rewrite Hcolls. cbn.
    destruct (bool_decide _); reflexivity. }
  split.
  - destruct (client_get_collections (client st)) as [e | colls] eqn:Hcolls.
    + unfold set_collection, list_collections. unfold_monad. cbn.
      rewrite Hcolls. reflexivity.
    + rewrite (Hrun colls eq_refl).
      destruct (bool_decide _); [reflexivity |].
      rewrite create_collection_config. reflexivity.
  - intros colls Hcolls. rewrite (Hrun colls Hcolls). split.
    + intros Hin. rewrite bool_decide_eq_true_2 by exact Hin.
      split; reflexivity.
    + intros Hout. rewrite bool_decide_eq_false_2 by exact Hout.
      split; [reflexivity | split].
      * destruct (create_collection_journal name
                    (journalled GetCollections (with_collection_name (Some name) st)))
          as [rest Hrest].
        exists rest. rewrite Hrest. cbn. rewrite <- app_assoc. reflexivity.
      * intros c Hcreate. unfold create_collection. unfold_monad. cbn.
        rewrite Hcreate. cbn. split.
        -- repeat (case_match; simplify_eq/=; try done).
        -- intros info Hinfo Hstatus Hcount. rewrite Hinfo. cbn.
           rewrite (bool_decide_eq_true_2 _ Hstatus). cbn.
           rewrite (bool_decide_eq_true_2 _ Hcount). cbn.
           destruct settings_debug; reflexivity.
Qed.
End Lifecycle.

(** C3.  The configuration carries a [distance] field, but
    [create_collection] does not read it: with [distance] set to the
    Euclidean metric, the collection is still recreated, with the right
    size, under the cosine metric. *)
Theorem create_collection_ignores_configured_distance :
  let cfg := {| cloud := false;
                url := url default_config;
                collection_name := None;
                storage_path := storage_path default_config;
                distance := Distance_value EUCLID |} in
  let st := Mem.adapter Mem.embed Mem.report false cfg ∅ in
  distance (config (create_collection "docs" st).2) = "Euclid"
  /\ (create_collection "docs" st).1 = inr tt
  /\ journal (create_collection "docs" st).2 =
       [RecreateCollection "docs" {| vp_size := 2; vp_distance := COSINE |};
        GetCollection "docs"]
  /\ Mem.params <$> (client (create_collection "docs" st).2 !! "docs")
     = Some {| vp_size := 2; vp_distance := COSINE |}.
Proof. vm_compute. repeat split. Qed.

Lemma set_collection_creates_if_absent_witness :
  let st := Mem.adapter Mem.embed Mem.report false default_config Mem.store_docs in
  (set_collection "docs" st =
     (inr tt, journalled GetCollections (with_collection_name (Some "docs") st))
   /\ client (set_collection "docs" st).2 = Mem.store_docs)
  /\ set_collection "fresh" st =
       create_collection "fresh"
         (journalled GetCollections (with_collection_name (Some "fresh") st))
  /\ (exists rest,
        journal (set_collection "fresh" st).2 =
        journal st
          ++ GetCollections
          :: RecreateCollection "fresh" {| vp_size := 2; vp_distance := COSINE |}
          :: rest)
  /\ client (set_collection "fresh" st).2 =
       <[ "fresh" := {| Mem.params := {| vp_size := 2; vp_distance := COSINE |};
                        Mem.points := ∅ |} ]> Mem.store_docs
  /\ (set_collection "fresh" st).1 = inr tt.
Proof.
  cbn zeta.
  pose (st := Mem.adapter Mem.embed Mem.report false default_config Mem.store_docs).
  pose (colls := {| collections := [ {| cd_name := "docs" |} ] |}).
  split.
  - destruct (set_collection_creates_if_absent "docs" st) as [_ Hcases].
    destruct (Hcases colls eq_refl) as [Hpresent _].
    apply Hpresent. vm_compute. left.
  - destruct (set_collection_creates_if_absent "fresh" st) as [_ Hcases].
    destruct (Hcases colls eq_refl) as [_ Habsent].
    destruct Habsent as (Hcontinues & Hcalls & Hcreated).
    { intros Hin. vm_compute in Hin.
      inversion Hin as [| ? ? ? Htail]; subst. inversion Htail. }
    destruct (Hcreated
                (<[ "fresh" := {| Mem.params := {| vp_size := 2; vp_distance := COSINE |};
                                  Mem.points := ∅ |} ]> Mem.store_docs)
                eq_refl) as [Hstore Hreturns].
    split; [exact Hcontinues |]. split; [exact Hcalls |].
    split; [exact Hstore |].
    apply (Hreturns (Mem.report 0)); reflexivity.
Defined.

(** ** Search results *)

Section Search.
Context {D : Domain} {X : Collaborators}.

(** Reading the scores succeeds only on a list without [None], and then
    yields the scores in order. *)
Lemma comprehension_score_of (l : list (option ScoredPoint)) (scores : list Score) :
  comprehension score_of l = inr scores ->
  exists matches, l = Some <$> matches /\ scores = score <$> matches.
Proof.
  revert scores. induction l as [| m l IH]; intros scores Hrun; cbn in Hrun.
  - exists []. now simplify_eq.
  - destruct m as [p |]; cbn in Hrun; [| discriminate].
    destruct (comprehension score_of l) as [e | scores'] eqn:Hl; [discriminate |].
    simplify_eq. destruct (IH scores' eq_refl) as (matches & -> & ->).
    now exists (p :: matches).
Qed.

Lemma omap_id_Some {A} (l : list A) : omap id (Some <$> l) = l.
Proof. induction l as [| a l IH]; cbn; [reflexivity | now rewrite IH]. Qed.

(** A comprehension that succeeds has mapped every element, in order. *)
Lemma comprehension_Forall2 {A B} (f : A -> Exn + B) (l : list A) (bs : list B) :
  comprehension f l = inr bs -> Forall2 (fun a b => f a = inr b) l bs.
Proof.
  revert bs. induction l as [| a l IH]; intros bs Hrun; cbn in Hrun.
  - simplify_eq. constructor.
  - destruct (f a) as [e | b] eqn:Ha; [discriminate |].
    destruct (comprehension f l) as [e | bs'] eqn:Hl; [discriminate |].
    simplify_eq. constructor; [exact Ha | now apply IH].
Qed.

Lemma zip_pairs_of_matches (matches : list ScoredPoint) (docs : list Document) :
  Forall2 (fun m d => document_of m = inr d) matches docs ->
  Forall2 pair_of_match matches (zip docs (score <$> matches)).
Proof.
  induction 1 as [| m d matches docs Hm _ IH]; cbn; constructor; [| exact IH].
  split; [exact Hm | reflexivity].
Qed.

(** A search that returns has gone through every step: the embedding, the
    filter, the active name, the client's answer without a [None] in it,
    and one pair per match. *)
Lemma similar_texts_with_scores_inv
    (text : string) (k : Z) (where_ : option string)
    (st st' : QdrantDB) (pairs : list (Document * Score)) :
  similar_texts_with_scores text k where_ st = (inr pairs, st') ->
  exists name v vs f matches,
    collection_name (config st) = Some name
    /\ embedding_fn [text] = inr (v :: vs)
    /\ filter_of where_ = inr f
    /\ client_search name v f k search_params (client st) = inr (Some <$> matches)
    /\ Forall2 pair_of_match matches pairs.
Proof.
  unfold similar_texts_with_scores. unfold_monad. cbn.
  destruct (embedding_fn [text]) as [e | [| v vs]] eqn:Hemb; cbn;
    [discriminate | discriminate |].
  destruct (filter_of where_) as [e | f] eqn:Hfilter; cbn; [discriminate |].
  destruct (collection_name (config st)) as [name |] eqn:Hname; cbn;
    [| discriminate].
  destruct (client_search name v f k search_params (client st))
    as [e | result] eqn:Hsearch; cbn; [discriminate |].
  destruct (comprehension score_of result) as [e | scores] eqn:Hscores; cbn;
    [discriminate |].
  destruct (comprehension_score_of _ _ Hscores) as (matches & -> & ->).
  rewrite omap_id_Some.
  destruct (comprehension document_of matches) as [e | docs] eqn:Hdocs; cbn;
    [discriminate |].
  pose proof (comprehension_Forall2 _ _ _ Hdocs) as Hall.
  intros Hrun. exists name, v, vs, f, matches.
  repeat (split; [reflexivity || assumption |]).
  destruct (bool_decide (length docs = 0%nat)) eqn:Hempty; cbn in Hrun.
  - apply bool_decide_eq_true_1 in Hempty.
    destruct docs; [| discriminate]. inversion Hall; subst.
    simplify_eq. constructor.
  - destruct settings_debug; cbn in Hrun; simplify_eq;
      now apply zip_pairs_of_matches.
Qed.

(** A pair that comes from a match holds the document built from the
    payload of that match. *)
Lemma pair_of_match_built (m : ScoredPoint) (pr : Document * Score) :
  pair_of_match m pr -> pair_built_from_match m pr.
Proof.
  unfold pair_of_match, pair_built_from_match, document_of.
  intros [Hdoc Hscore]. split; [| exact Hscore].
  destruct (payload m) as [pl |]; [| discriminate].
  destruct (Document_of_payload pl) as [d |] eqn:Hpl; [| discriminate].
  simplify_eq. now exists pl.
Qed.

(** C2.  When [similar_texts_with_scores] returns, the client's answer to
    the search it issued was a list of matches, and the result has one
    pair per match, in the order of the answer: the document built from
    the payload of the match, and the score of the match. *)
Theorem similar_texts_pairs_follow_matches
    (text : string) (k : Z) (where_ : option string)
    (st st' : QdrantDB) (pairs : list (Document * Score)) :
  similar_texts_with_scores text k where_ st = (inr pairs, st') ->
  exists name v vs f matches,
    collection_name (config st) = Some name
    /\ embedding_fn [text] = inr (v :: vs)
    /\ filter_of where_ = inr f
    /\ client_search name v f k search_params (client st) = inr (Some <$> matches)
    /\ Forall2 pair_built_from_match matches pairs.
Proof.
  intros Hrun.
  destruct (similar_texts_with_scores_inv _ _ _ _ _ _ Hrun)
    as (name & v & vs & f & matches & Hname & Hemb & Hfilter & Hsearch & Hpairs).
  exists name, v, vs, f, matches.
  repeat (split; [assumption |]).
  eapply Forall2_impl; [exact Hpairs |].
  intros m pr. apply pair_of_match_built.
Qed.

(** C6 (amended).  A search that returns has exactly one pair per match
    of the client's answer: the adapter hands [k] over as the limit and
    does not cut the answer itself.  So for [k] that is not negative, and
    against a client that honours such a limit, a search that returns has
    at most [k] pairs.  For every [k], a search whose client answers with
    no match returns the empty list, after logging a warning, and does not
    raise. *)
Theorem similar_texts_at_most_k
    (text : string) (k : Z) (where_ : option string) (st : QdrantDB) :
  (forall pairs st',
      similar_texts_with_scores text k where_ st = (inr pairs, st') ->
      exists name v vs f answer,
        collection_name (config st) = Some name
        /\ embedding_fn [text] = inr (v :: vs)
        /\ filter_of where_ = inr f
        /\ client_search name v f k search_params (client st) = inr answer
        /\ length pairs = length answer)
  /\
  (0 <= k ->
   search_respects_nonnegative_limit ->
   at_most_k_pairs k (similar_texts_with_scores text k where_ st))
  /\
  (forall name v vs f,
      collection_name (config st) = Some name ->
      embedding_fn [text] = inr (v :: vs) ->
      filter_of where_ = inr f ->
      client_search name v f k search_params (client st) = inr [] ->
      similar_texts_with_scores text k where_ st =
        (inr [],
         journalled (LogWarningNoMatches text)
           (journalled (Search name v f k search_params)
              (journalled (EmbedCall [text]) st)))).
Proof.
  assert (Hcount : forall pairs st',
    similar_texts_with_scores text k where_ st = (inr pairs, st') ->
    exists name v vs f answer,
      collection_name (config st) = Some name
      /\ embedding_fn [text] = inr (v :: vs)
      /\ filter_of where_ = inr f
      /\ client_search name v f k search_params (client st) = inr answer
      /\ length pairs = length answer).
  { intros pairs st' Hrun.
    destruct (similar_texts_with_scores_inv _ _ _ _ _ _ Hrun)
      as (name & v & vs & f & matches & Hname & Hemb & Hfilter & Hsearch & Hpairs).
    exists name, v, vs, f, (Some <$> matches).
    repeat (split; [assumption |]).
    rewrite length_fmap. symmetry. exact (Forall2_length _ _ _ Hpairs). }
  split; [exact Hcount | split].
  - intros Hk Hlimit pairs Hpairs.
    destruct (similar_texts_with_scores text k where_ st) as [out st'] eqn:Hrun.
    cbn in Hpairs. subst out.
    destruct (Hcount pairs st' eq_refl)
      as (name & v & vs & f & answer & _ & _ & _ & Hsearch & ->).
    exact (Hlimit _ _ _ _ _ _ _ Hk Hsearch).
  - intros name v vs f Hname Hemb Hfilter Hsearch.
    unfold similar_texts_with_scores. unfold_monad. cbn.
    rewrite Hemb. cbn. rewrite Hfilter. cbn. rewrite Hname. cbn.
    rewrite Hsearch. reflexivity.
Qed.
End Search.

(** ** The check after creation *)

Section Created.
Context {D : Domain} {X : Collaborators}.

(** C4 (amended).  When [create_collection name] returns, the client
    reports the collection as green with a vectors count of zero, whatever
    was stored before.  When the recreation returns and the client then
    reports another status or another vectors count, the call raises
    [AssertionError]. *)
Theorem create_collection_postcondition (name : string) (st : QdrantDB) :
  (forall st',
      create_collection name st = (inr tt, st') ->
      exists info,
        client_get_collection name (client st') = inr info
        /\ status info = GREEN
        /\ vectors_count info = 0)
  /\
  (forall c info,
      client_recreate_collection name
        {| vp_size := embedding_dim st; vp_distance := COSINE |} (client st) = inr c ->
      client_get_collection name c = inr info ->
      ~ (status info = GREEN /\ vectors_count info = 0) ->
      (create_collection name st).1 = inl AssertionError).
Proof.
  split.
  - intros st'. unfold create_collection. unfold_monad. cbn.
    destruct (client_recreate_collection _ _ _) as [e | c] eqn:Hcreate; cbn;
      [discriminate |].
    destruct (client_get_collection name c) as [e | info] eqn:Hinfo; cbn;
      [discriminate |].
    destruct (bool_decide (status info = GREEN)) eqn:Hstatus; cbn;
      [| discriminate].
    destruct (bool_decide (vectors_count info = 0)) eqn:Hcount; cbn;
      [| discriminate].
    apply bool_decide_eq_true_1 in Hstatus, Hcount.
    destruct settings_debug; cbn; intros Hrun; simplify_eq; cbn;
      exists info; auto.
  - intros c info Hcreate Hinfo Hbad.
    unfold create_collection. unfold_monad. cbn.
    rewrite Hcreate. cbn. rewrite Hinfo. cbn.
    destruct (bool_decide (status info = GREEN)) eqn:Hstatus; cbn;
      [| reflexivity].
    destruct (bool_decide (vectors_count info = 0)) eqn:Hcount; cbn;
      [| reflexivity].
    apply bool_decide_eq_true_1 in Hstatus, Hcount. tauto.
Qed.
End Created.

(** C4, as worded, fails against a service whose point count and vectors
    count disagree: the call returns, and the collection is reported with
    one point.  The assertion reads [vectors_count]. *)
Lemma create_collection_returns_with_points :
  let st := Mem.adapter Mem.embed Mem.report_skewed false default_config ∅ in
  (create_collection "docs" st).1 = inr tt
  /\ ~ healthy_and_no_points "docs" (client (create_collection "docs" st).2).
Proof.
  cbn zeta. split; [reflexivity |].
  intros (info & Hinfo & _ & Hcount).
  vm_compute in Hinfo. injection Hinfo as <-. discriminate Hcount.
Qed.

Lemma create_collection_postcondition_witness :
  let st := Mem.adapter Mem.embed Mem.report false default_config Mem.store_docs in
  (exists info,
      client_get_collection "docs" (client (create_collection "docs" st).2) = inr info
      /\ status info = GREEN
      /\ vectors_count info = 0)
  /\ (let bad := Mem.adapter Mem.embed
                   (fun n => {| status := YELLOW; vectors_count := n; points_count := n |})
                   false default_config Mem.store_docs in
      (create_collection "docs" bad).1 = inl AssertionError).
Proof.
  cbn zeta. split.
  - pose (st := Mem.adapter Mem.embed Mem.report false default_config Mem.store_docs).
    destruct (create_collection_postcondition "docs" st) as [Hgood _].
    apply (Hgood (create_collection "docs" st).2). reflexivity.
  - pose (bad := Mem.adapter Mem.embed
                   (fun n => {| status := YELLOW; vectors_count := n; points_count := n |})
                   false default_config Mem.store_docs).
    destruct (create_collection_postcondition "docs" bad) as [_ Hbad].
    eapply Hbad; [reflexivity | reflexivity |].
    intros [Hstatus _]. discriminate Hstatus.
Defined.

(** ** Sweeping the empty collections *)

Section Sweep.
Context {D : Domain} {X : Collaborators}.

Lemma clear_empty_loop_cons (name : string) (rest : list string) (n : Z)
    (st : QdrantDB) (info : CollectionInfo) :
  client_get_collection name (client st) = inr info ->
  clear_empty_loop (name :: rest) n st =
    if decide (points_count info = 0) then
      match client_delete_collection name (client st) with
      | inr c' =>
          clear_empty_loop rest (n + 1)
            (with_client c'
               (journalled (DeleteCollection name)
                  (journalled (GetCollection name) st)))
      | inl e =>
          (inl (Propagated e),
           journalled (DeleteCollection name) (journalled (GetCollection name) st))
      end
    else clear_empty_loop rest n (journalled (GetCollection name) st).
Proof.
  intros Hinfo. cbn [clear_empty_loop]. unfold_monad. cbn.
  rewrite Hinfo. cbn.
  destruct (decide (points_count info = 0)); [| reflexivity].
  unfold_monad. cbn.
  destruct (client_delete_collection name (client st)); reflexivity.
Qed.

(** The loop, from any point of the sweep.  [c0] is the store the sweep
    started from; the names still to visit are distinct, listed, and
    reported as they were in [c0]. *)
Lemma clear_empty_loop_sweeps (laws : StoreLaws) (c0 : Client)
    (todo : list string) :
  forall (n : Z) (st : QdrantDB),
    NoDup todo ->
    (forall name, name ∈ todo -> name ∈ names_of (client st)) ->
    (forall name, name ∈ todo ->
       client_get_collection name (client st) = client_get_collection name c0) ->
    exists c',
      clear_empty_loop todo n st =
        (inr (n + Z.of_nat (length (empties c0 todo))),
         {| config := config st;
            client := c';
            embedding_dim := embedding_dim st;
            journal := journal st ++ sweep_calls c0 todo |})
      /\ (forall other,
            other ∈ names_of c' <->
            other ∈ names_of (client st) /\ other ∉ empties c0 todo)
      /\ (forall other,
            other ∉ empties c0 todo -> untouched other (client st) c').
Proof.
  induction todo as [| name rest IH]; intros n st Hdistinct Hlisted Hagree.
  - exists (client st). cbn. rewrite Z.add_0_r, app_nil_r.
    split; [destruct st; reflexivity |].
    split; [| intros; split; reflexivity].
    intros other.
    split; [intros H; split; [exact H | apply not_elem_of_nil] | tauto].
  - apply NoDup_cons in Hdistinct as [Hfresh Hdistinct].
    destruct (info_total laws (client st) name) as [info Hinfo];
      [apply Hlisted; left |].
    assert (Hjudge : is_empty_in c0 name = bool_decide (points_count info = 0)).
    { unfold is_empty_in. rewrite <- (Hagree name) by left.
      now rewrite Hinfo. }
    rewrite (clear_empty_loop_cons _ _ _ _ _ Hinfo).
    unfold empties. rewrite filter_cons. cbn [sweep_calls]. rewrite Hjudge.
    destruct (decide (points_count info = 0)) as [Hzero | Hsome].
    + rewrite bool_decide_eq_true_2 by exact Hzero.
      destruct (decide (true = true)) as [_ | Hne]; [| congruence].
      destruct (delete_total laws (client st) name) as [c1 Hdelete];
        [apply Hlisted; left |].
      rewrite Hdelete.
      destruct (IH (n + 1)
                  (with_client c1
                     (journalled (DeleteCollection name)
                        (journalled (GetCollection name) st))))
        as (c' & Hrun & Hnames & Hframe).
      * exact Hdistinct.
      * intros other Hother. cbn.
        apply (delete_names laws _ _ _ Hdelete). split.
        -- apply Hlisted. now right.
        -- intros ->. contradiction.
      * intros other Hother. cbn.
        rewrite (delete_frame_info laws _ _ _ Hdelete)
          by (intros ->; contradiction).
        apply Hagree. now right.
      * exists c'. split; [| split].
        -- rewrite Hrun. f_equal.
           ++ f_equal. fold (empties c0 rest).
              change (length (name :: empties c0 rest))
                with (S (length (empties c0 rest))).
              lia.
           ++ cbn. f_equal. rewrite <- !app_assoc. reflexivity.
        -- intros other. rewrite Hnames. cbn.
           rewrite (delete_names laws _ _ _ Hdelete other).
           fold (empties c0 rest). rewrite not_elem_of_cons. tauto.
        -- intros other Hother. fold (empties c0 rest) in Hother.
           apply not_elem_of_cons in Hother as [Hne Hother].
           destruct (Hframe other Hother) as [Hi Hs]. cbn in Hi, Hs.
           split.
           ++ rewrite Hi. now apply (delete_frame_info laws _ _ _ Hdelete).
           ++ intros v f k sp. rewrite Hs.
              now apply (delete_frame_search laws _ _ _ Hdelete).
    + rewrite bool_decide_eq_false_2 by exact Hsome.
      destruct (decide (false = true)) as [Hne | _]; [congruence |].
      destruct (IH n (journalled (GetCollection name) st))
        as (c' & Hrun & Hnames & Hframe).
      * exact Hdistinct.
      * intros other Hother. cbn. apply Hlisted. now right.
      * intros other Hother. cbn. apply Hagree. now right.
      * exists c'. split; [| split].
        -- rewrite Hrun. cbn. f_equal.
           f_equal. rewrite <- !app_assoc. reflexivity.
        -- exact Hnames.
        -- exact Hframe.
Qed.

(** C5.  Against a client with the laws above, and from any store,
    [clear_empty_collections] returns: it lists the collections, looks
    each one up and deletes those, and only those, whose point count was
    zero when the call started; what remains listed is what was listed and
    had points; nothing observable of a collection that had points has
    changed; the value returned is the number of collections deleted. *)
Theorem clear_empty_collections_sweeps (st : QdrantDB) :
  StoreLaws ->
  exists c',
    clear_empty_collections st =
      (inr (Z.of_nat (length (empties (client st) (names_of (client st))))),
       {| config := config st;
          client := c';
          embedding_dim := embedding_dim st;
          journal :=
            journal st
              ++ GetCollections :: sweep_calls (client st) (names_of (client st)) |})
    /\ (forall name,
          name ∈ names_of c' <->
          name ∈ names_of (client st)
          /\ name ∉ empties (client st) (names_of (client st)))
    /\ (forall name,
          name ∉ empties (client st) (names_of (client st)) ->
          untouched name (client st) c').
Proof.
  intros laws.
  destruct (listing_total laws (client st)) as (colls & Hcolls & Hdistinct).
  assert (Hnames : names_of (client st) = cd_name <$> collections colls).
  { unfold names_of. now rewrite Hcolls. }
  destruct (clear_empty_loop_sweeps laws (client st) (names_of (client st)) 0
              (journalled GetCollections st))
    as (c' & Hrun & Hlisted & Hframe).
  - now rewrite Hnames.
  - intros name Hname. exact Hname.
  - reflexivity.
  - exists c'. split; [| split].
    + unfold clear_empty_collections, list_collections. unfold_monad. cbn.
      rewrite Hcolls. cbn. rewrite <- Hnames.
      unfold_monad. rewrite Hrun. cbn. rewrite <- app_assoc. reflexivity.
    + exact Hlisted.
    + exact Hframe.
Qed.
End Sweep.

(** ** Ingesting the same content again *)

Section Reingest.
Context {D : Domain} {X : Collaborators}.

Lemma unique_hash_ids (documents : list Document) :
  _unique_hash_id <$> documents = content_hash <$> (content <$> documents).
Proof. rewrite <- list_fmap_compose. reflexivity. Qed.

(** An ingestion that returns has embedded the contents and upserted one
    batch into the active collection. *)
Lemma add_documents_inv (documents : list Document) (st st' : QdrantDB) :
  add_documents documents st = (inr tt, st') ->
  exists name vecs c',
    collection_name (config st) = Some name
    /\ embedding_fn (content <$> documents) = inr vecs
    /\ client_upsert name
         {| ids := _unique_hash_id <$> documents;
            vectors := vecs;
            payloads := documents |} (client st) = inr c'
    /\ st' = {| config := config st;
                client := c';
                embedding_dim := embedding_dim st;
                journal :=
                  journal st
                    ++ [EmbedCall (content <$> documents);
                        Upsert name
                          {| ids := _unique_hash_id <$> documents;
                             vectors := vecs;
                             payloads := documents |}] |}.
Proof.
  unfold add_documents. unfold_monad. cbn.
  destruct (embedding_fn (content <$> documents)) as [e | vecs] eqn:Hemb; cbn;
    [discriminate |].
  destruct (collection_name (config st)) as [name |] eqn:Hname; cbn;
    [| discriminate].
  destruct (client_upsert name _ (client st)) as [e | c'] eqn:Hupsert; cbn;
    [discriminate |].
  intros Hrun. simplify_eq. exists name, vecs, c'.
  repeat (split; [reflexivity || assumption |]).
  unfold with_client, journalled. cbn. rewrite <- app_assoc. reflexivity.
Qed.

End Reingest.

(** ** Construction, deletion and what is never rolled back *)

Section Construction.
Context {D : Domain} {X : Collaborators}.


(** X2.  Once the recreation has returned, the store stays the recreated one
    however [create_collection] ends: a lookup that raises or an assertion
    that fails comes after the old collection is gone. *)
Theorem create_collection_keeps_recreated_store
    (name : string) (st : QdrantDB) (c : Client) :
  client_recreate_collection name
    {| vp_size := embedding_dim st; vp_distance := COSINE |} (client st) = inr c ->
  client (create_collection name st).2 = c.
Proof.
  intros Hcreate. unfold create_collection. unfold_monad. cbn.
  rewrite Hcreate. cbn.
  repeat (case_match; simplify_eq/=; try done).
Qed.

End Construction.

(** ** The sweep, against any client *)

Section SweepCalls.
Context {D : Domain} {X : Collaborators}.

Lemma deletes_follow_lookups_any (previous : option Event) (calls : list Event) :
  deletes_follow_lookups None calls -> deletes_follow_lookups previous calls.
Proof.
  destruct calls as [| e rest]; [trivial |].
  cbn. intros [Hhead Htail]. split; [| exact Htail].
  destruct e; trivial; discriminate.
Qed.

Lemma count_deletes_lookup (name : string) (calls : list Event) :
  count_deletes (GetCollection name :: calls) = count_deletes calls.
Proof.
  unfold count_deletes. rewrite filter_cons_False; [reflexivity |].
  cbn. tauto.
Qed.

Lemma count_deletes_delete (name : string) (calls : list Event) :
  count_deletes (DeleteCollection name :: calls) = S (count_deletes calls).
Proof.
  unfold count_deletes. rewrite filter_cons_True; [reflexivity |].
  exact I.
Qed.

(** The loop from any point: what it journals, whatever the client
    answers and however the loop ends. *)
Lemma clear_empty_loop_calls (todo : list string) :
  forall (n : Z) (st : QdrantDB),
    exists calls,
      journal (clear_empty_loop todo n st).2 = journal st ++ calls
      /\ config (clear_empty_loop todo n st).2 = config st
      /\ embedding_dim (clear_empty_loop todo n st).2 = embedding_dim st
      /\ deletes_follow_lookups None calls
      /\ (forall name, DeleteCollection name ∈ calls -> name ∈ todo)
      /\ (forall m,
            (clear_empty_loop todo n st).1 = inr m ->
            m = n + Z.of_nat (count_deletes calls)).
Proof.
  induction todo as [| name rest IH]; intros n st.
  - exists []. cbn. rewrite app_nil_r.
    split; [reflexivity |]. split; [reflexivity |]. split; [reflexivity |].
    split; [exact I |].
    split; [intros other Hin; inversion Hin |].
    intros m Hm. simplify_eq. lia.
  - cbn [clear_empty_loop]. unfold_monad. cbn.
    destruct (client_get_collection name (client st)) as [e | info]; cbn.
    { exists [GetCollection name]. cbn.
      split; [reflexivity |]. split; [reflexivity |]. split; [reflexivity |].
      split; [tauto |].
      split; [| intros m Hm; discriminate].
      intros other Hin. apply list_elem_of_singleton in Hin. discriminate. }
    destruct (decide (points_count info = 0)) as [Hzero | Hsome].
    + unfold_monad. cbn.
      destruct (client_delete_collection name (client st)) as [e | c1]; cbn.
      { exists [GetCollection name; DeleteCollection name]. cbn.
        rewrite <- app_assoc.
        split; [reflexivity |]. split; [reflexivity |]. split; [reflexivity |].
        split; [tauto |].
        split; [| intros m Hm; discriminate].
        intros other Hin.
        apply elem_of_cons in Hin as [Hin | Hin]; [discriminate |].
        apply list_elem_of_singleton in Hin. simplify_eq. left. }
      destruct (IH (n + 1)
                  (with_client c1
                     (journalled (DeleteCollection name)
                        (journalled (GetCollection name) st))))
        as (calls & Hjournal & Hconfig & Hdim & Hwf & Hnames & Hcount).
      exists (GetCollection name :: DeleteCollection name :: calls).
      split; [rewrite Hjournal; cbn; rewrite <- !app_assoc; reflexivity |].
      split; [exact Hconfig |]. split; [exact Hdim |].
      split; [| split].
      * cbn. split; [trivial |]. split; [reflexivity |].
        now apply deletes_follow_lookups_any.
      * intros other Hin.
        apply elem_of_cons in Hin as [Hin | Hin]; [discriminate |].
        apply elem_of_cons in Hin as [Hin | Hin]; [simplify_eq; left |].
        right. now apply Hnames.
      * intros m Hm. rewrite (Hcount m Hm).
        rewrite count_deletes_lookup, count_deletes_delete. lia.
    + destruct (IH n (journalled (GetCollection name) st))
        as (calls & Hjournal & Hconfig & Hdim & Hwf & Hnames & Hcount).
      exists (GetCollection name :: calls).
      split; [rewrite Hjournal; cbn; rewrite <- !app_assoc; reflexivity |].
      split; [exact Hconfig |]. split; [exact Hdim |].
      split; [| split].
      * cbn. split; [trivial |]. now apply deletes_follow_lookups_any.
      * intros other Hin.
        apply elem_of_cons in Hin as [Hin | Hin]; [discriminate |].
        right. now apply Hnames.
      * intros m Hm. rewrite (Hcount m Hm).
        rewrite count_deletes_lookup. reflexivity.
Qed.

Lemma lookup_or_delete_of_cons (name : string) (rest : list string) (calls : list Event) :
  Forall (lookup_or_delete_of rest) calls ->
  Forall (lookup_or_delete_of (name :: rest)) calls.
Proof.
  intros Hcalls. eapply Forall_impl; [exact Hcalls |].
  intros e (other & Hother & He).
  exists other. split; [now right | exact He].
Qed.

(** The loop journals nothing but lookups and deletions of the names it
    was given. *)
Lemma clear_empty_loop_lookups_and_deletes (todo : list string) :
  forall (n : Z) (st : QdrantDB),
    exists calls,
      journal (clear_empty_loop todo n st).2 = journal st ++ calls
      /\ Forall (lookup_or_delete_of todo) calls.
Proof.
  induction todo as [| name rest IH]; intros n st.
  - exists []. cbn. rewrite app_nil_r. split; [reflexivity | constructor].
  - assert (Hlookup : lookup_or_delete_of (name :: rest) (GetCollection name)).
    { exists name. split; [left | now left]. }
    assert (Hdelete : lookup_or_delete_of (name :: rest) (DeleteCollection name)).
    { exists name. split; [left | now right]. }
    cbn [clear_empty_loop]. unfold_monad. cbn.
    destruct (client_get_collection name (client st)) as [e | info]; cbn.
    { exists [GetCollection name]. split; [reflexivity |].
      repeat constructor; assumption. }
    destruct (decide (points_count info = 0)) as [Hzero | Hsome].
    + unfold_monad. cbn.
      destruct (client_delete_collection name (client st)) as [e | c1]; cbn.
      { exists [GetCollection name; DeleteCollection name].
        rewrite <- app_assoc. split; [reflexivity |].
        repeat constructor; assumption. }
      destruct (IH (n + 1)
                  (with_client c1
                     (journalled (DeleteCollection name)
                        (journalled (GetCollection name) st))))
        as (calls & Hjournal & Hcalls).
      exists (GetCollection name :: DeleteCollection name :: calls).
      split; [rewrite Hjournal; cbn; rewrite <- !app_assoc; reflexivity |].
      constructor; [assumption |]. constructor; [assumption |].
      now apply lookup_or_delete_of_cons.
    + destruct (IH n (journalled (GetCollection name) st))
        as (calls & Hjournal & Hcalls).
      exists (GetCollection name :: calls).
      split; [rewrite Hjournal; cbn; rewrite <- !app_assoc; reflexivity |].
      constructor; [assumption |]. now apply lookup_or_delete_of_cons.
Qed.

(** X4.  Against any client, and however the call ends, the calls of
    [clear_empty_collections] are the listing followed by nothing but
    lookups and deletions of listed names, in which every deletion comes
    right after the lookup of the same collection.  When the call returns,
    the value returned is the number of deletions it issued. *)
Theorem clear_empty_collections_counts_its_deletions (st : QdrantDB) :
  exists calls,
    journal (clear_empty_collections st).2 = journal st ++ GetCollections :: calls
    /\ Forall (lookup_or_delete_of (names_of (client st))) calls
    /\ deletes_follow_lookups (Some GetCollections) calls
    /\ (forall name, DeleteCollection name ∈ calls -> name ∈ names_of (client st))
    /\ (forall m,
          (clear_empty_collections st).1 = inr m ->
          m = Z.of_nat (count_deletes calls)).
Proof.
  unfold clear_empty_collections, list_collections, names_of.
  unfold_monad. cbn.
  destruct (client_get_collections (client st)) as [e | colls]; cbn.
  - exists []. cbn. split; [reflexivity |]. split; [constructor |].
    split; [exact I |].
    split; [intros name Hin; inversion Hin | intros m Hm; discriminate].
  - destruct (clear_empty_loop_calls (cd_name <$> collections colls) 0
                (journalled GetCollections st))
      as (calls & Hjournal & _ & _ & Hwf & Hnames & Hcount).
    destruct (clear_empty_loop_lookups_and_deletes (cd_name <$> collections colls) 0
                (journalled GetCollections st))
      as (calls' & Hjournal' & Hcalls).
    assert (calls' = calls) as ->.
    { rewrite Hjournal in Hjournal'. now apply app_inv_head in Hjournal'. }
    exists calls. split; [| split; [| split; [| split]]].
    + rewrite Hjournal. cbn. rewrite <- app_assoc. reflexivity.
    + exact Hcalls.
    + now apply deletes_follow_lookups_any.
    + exact Hnames.
    + intros m Hm. rewrite (Hcount m Hm). lia.
Qed.

(** X5.  The methods that list and delete collections leave the configuration
    as it is, however they end: the active name survives the deletion or
    the sweep of the collection it names. *)
Theorem collection_management_keeps_config (st : QdrantDB) :
  config (list_collections st).2 = config st
  /\ (forall name, config (delete_collection name st).2 = config st)
  /\ config (clear_empty_collections st).2 = config st.
Proof.
  split; [run_methods | split; [intros name; run_methods |]].
  unfold clear_empty_collections, list_collections. unfold_monad. cbn.
  destruct (client_get_collections (client st)) as [e | colls]; cbn;
    [reflexivity |].
  destruct (clear_empty_loop_calls (cd_name <$> collections colls) 0
              (journalled GetCollections st))
    as (calls & _ & Hconfig & _).
  exact Hconfig.
Qed.

Lemma clear_empty_loop_none_empty (names : list string) :
  forall (n : Z) (st : QdrantDB),
    (forall name, name ∈ names ->
       exists info,
         client_get_collection name (client st) = inr info
         /\ points_count info <> 0) ->
    clear_empty_loop names n st =
      (inr n, after_calls (GetCollection <$> names) (client st) st).
Proof.
  induction names as [| name rest IH]; intros n st Hfull.
  - cbn. unfold after_calls. rewrite app_nil_r. destruct st; reflexivity.
  - destruct (Hfull name) as (info & Hinfo & Hsome); [left |].
    rewrite (clear_empty_loop_cons _ _ _ _ _ Hinfo).
    destruct (decide (points_count info = 0)) as [Hzero | _]; [contradiction |].
    rewrite IH.
    + unfold after_calls. cbn. rewrite <- app_assoc. reflexivity.
    + intros other Hother. cbn. apply Hfull. now right.
Qed.

(** X6.  When the listing answers and every listed collection is reported with
    a point count other than zero, the sweep looks each one up, in the
    order of the listing, deletes nothing, leaves the store as it was and
    returns 0. *)
Theorem clear_empty_collections_none_empty
    (st : QdrantDB) (colls : CollectionsResponse) :
  client_get_collections (client st) = inr colls ->
  (forall name, name ∈ cd_name <$> collections colls ->
     exists info,
       client_get_collection name (client st) = inr info
       /\ points_count info <> 0) ->
  clear_empty_collections st =
    (inr 0,
     after_calls (GetCollections :: (GetCollection <$> (cd_name <$> collections colls)))
       (client st) st).
Proof.
  intros Hcolls Hfull.
  unfold clear_empty_collections, list_collections. unfold_monad. cbn.
  rewrite Hcolls. cbn.
  rewrite clear_empty_loop_none_empty by exact Hfull.
  unfold after_calls. cbn. rewrite <- app_assoc. reflexivity.
Qed.
End SweepCalls.

(** ** How a search fails, and what it never does *)

Section SearchErrors.
Context {D : Domain} {X : Collaborators}.

Lemma comprehension_score_of_None (l : list (option ScoredPoint)) :
  None ∈ l -> comprehension score_of l = inl AttributeError.
Proof.
  induction l as [| m l IH]; intros Hin; [inversion Hin |].
  destruct m as [p |]; cbn; [| reflexivity].
  apply elem_of_cons in Hin as [Hin | Hin]; [discriminate |].
  now rewrite (IH Hin).
Qed.

Lemma comprehension_score_of_Some (matches : list ScoredPoint) :
  comprehension score_of (Some <$> matches) = inr (score <$> matches).
Proof.
  induction matches as [| p matches IH]; cbn; [reflexivity |].
  now rewrite IH.
Qed.

Lemma document_of_error (p : ScoredPoint) (e : Exn) :
  document_of p = inl e -> e = TypeError \/ e = ValidationError.
Proof.
  unfold document_of.
  destruct (payload p) as [pl |]; [| intros He; simplify_eq; now left].
  destruct (Document_of_payload pl); intros He; simplify_eq. now right.
Qed.

Lemma comprehension_document_of_error (matches : list ScoredPoint) :
  Exists (fun p => forall d, document_of p <> inr d) matches ->
  exists e,
    comprehension document_of matches = inl e
    /\ (e = TypeError \/ e = ValidationError).
Proof.
  induction 1 as [p matches Hbad | p matches _ IH]; cbn.
  - destruct (document_of p) as [e | d] eqn:Hp; [| now destruct (Hbad d)].
    exists e. split; [reflexivity |]. now apply document_of_error in Hp.
  - destruct (document_of p) as [e | d] eqn:Hp.
    + exists e. split; [reflexivity |]. now apply document_of_error in Hp.
    + destruct IH as (e & -> & He). now exists e.
Qed.

(** X7.  A search stops before it contacts the client when the embedding
    provider answers with no vector ([IndexError]) or when the filter
    cannot be built (the error of the filter), whether or not a collection
    is active: the only call made is the one to the provider. *)
Theorem search_fails_before_the_client
    (text : string) (k : Z) (where_ : option string) (st : QdrantDB) :
  (embedding_fn [text] = inr [] ->
     similar_texts_with_scores text k where_ st =
       (inl IndexError, journalled (EmbedCall [text]) st))
  /\ (forall v vs e,
        embedding_fn [text] = inr (v :: vs) ->
        filter_of where_ = inl e ->
        similar_texts_with_scores text k where_ st =
          (inl (Propagated e), journalled (EmbedCall [text]) st)).
Proof.
  split.
  - intros Hemb. unfold similar_texts_with_scores. unfold_monad. cbn.
    rewrite Hemb. reflexivity.
  - intros v vs e Hemb Hfilter.
    unfold similar_texts_with_scores. unfold_monad. cbn.
    rewrite Hemb. cbn. rewrite Hfilter. reflexivity.
Qed.

(** X8.  When the answer of the client has a [None] in it, the search raises
    [AttributeError]: the scores are read from every match before the
    matches that are [None] are filtered out of the documents. *)
Theorem search_answer_with_none_raises
    (text : string) (k : Z) (where_ : option string) (st : QdrantDB)
    (name : string) (v : Vector) (vs : list Vector) (f : Filter)
    (answer : list (option ScoredPoint)) :
  collection_name (config st) = Some name ->
  embedding_fn [text] = inr (v :: vs) ->
  filter_of where_ = inr f ->
  client_search name v f k search_params (client st) = inr answer ->
  None ∈ answer ->
  similar_texts_with_scores text k where_ st =
    (inl AttributeError,
     journalled (Search name v f k search_params)
       (journalled (EmbedCall [text]) st)).
Proof.
  intros Hname Hemb Hfilter Hsearch Hnone.
  unfold similar_texts_with_scores. unfold_monad. cbn.
  rewrite Hemb. cbn. rewrite Hfilter. cbn. rewrite Hname. cbn.
  rewrite Hsearch. cbn.
  rewrite (comprehension_score_of_None _ Hnone). reflexivity.
Qed.

(** X9.  When one of the matches has no payload, or a payload that is not a
    document, the search raises ([TypeError] or the validation error of
    the constructor): it does not return the other matches. *)
Theorem search_bad_payload_raises
    (text : string) (k : Z) (where_ : option string) (st : QdrantDB)
    (name : string) (v : Vector) (vs : list Vector) (f : Filter)
    (matches : list ScoredPoint) :
  collection_name (config st) = Some name ->
  embedding_fn [text] = inr (v :: vs) ->
  filter_of where_ = inr f ->
  client_search name v f k search_params (client st) = inr (Some <$> matches) ->
  Exists (fun p => forall d, document_of p <> inr d) matches ->
  exists e,
    similar_texts_with_scores text k where_ st =
      (inl e,
       journalled (Search name v f k search_params)
         (journalled (EmbedCall [text]) st))
    /\ (e = TypeError \/ e = ValidationError).
Proof.
  intros Hname Hemb Hfilter Hsearch Hbad.
  destruct (comprehension_document_of_error _ Hbad) as (e & Hdocs & He).
  exists e. split; [| exact He].
  unfold similar_texts_with_scores. unfold_monad. cbn.
  rewrite Hemb. cbn. rewrite Hfilter. cbn. rewrite Hname. cbn.
  rewrite Hsearch. cbn.
  rewrite comprehension_score_of_Some. cbn.
  rewrite omap_id_Some, Hdocs. reflexivity.
Qed.

(** X10.  A search never writes.  However it ends, the store and the
    configuration are the ones it started with, and the calls it has added
    that leave for the network are the call to the embedding provider
    alone, or that call followed by a single search on the client. *)
Theorem search_is_read_only
    (text : string) (k : Z) (where_ : option string) (st : QdrantDB) :
  client (similar_texts_with_scores text k where_ st).2 = client st
  /\ config (similar_texts_with_scores text k where_ st).2 = config st
  /\ exists calls,
       journal (similar_texts_with_scores text k where_ st).2 = journal st ++ calls
       /\ (filter is_network_call calls = [EmbedCall [text]]
           \/ exists name v f,
                filter is_network_call calls =
                  [EmbedCall [text]; Search name v f k search_params]).
Proof.
  split; [| split; [apply similar_texts_with_scores_config |]].
  - run_methods.
  - run_methods; rewrite <- ?app_assoc; cbn;
      (eexists; split; [reflexivity |]);
      solve [ left; reflexivity | right; eexists _, _, _; reflexivity ].
Qed.
End SearchErrors.

(** ** Ingestion in one batch *)

Section Ingestion.
Context {D : Domain} {X : Collaborators}.

(** X11.  However many documents it is given and however it ends,
    [add_documents] leaves the configuration alone and adds to the network
    calls either the call to the embedding provider alone, or that call
    followed by one upsert: the whole batch, one identifier and one payload
    per document in the order given, into the active collection. *)
Theorem ingestion_is_one_batch (documents : list Document) (st : QdrantDB) :
  config (add_documents documents st).2 = config st
  /\ exists calls,
       journal (add_documents documents st).2 = journal st ++ calls
       /\ (calls = [EmbedCall (content <$> documents)]
           \/ exists name points,
                calls = [EmbedCall (content <$> documents); Upsert name points]
                /\ collection_name (config st) = Some name
                /\ payloads points = documents
                /\ length (ids points) = length documents).
Proof.
  split; [apply add_documents_config |].
  unfold add_documents. unfold_monad. cbn.
  destruct (embedding_fn (content <$> documents)) as [e | vecs]; cbn.
  { eexists. split; [reflexivity |]. now left. }
  destruct (collection_name (config st)) as [name |] eqn:Hname; cbn.
  2: { eexists. split; [reflexivity |]. now left. }
  destruct (client_upsert _ _ _); cbn; rewrite <- app_assoc;
    (eexists; split; [reflexivity |]); right; eexists _, _;
    (split; [reflexivity |]); cbn; rewrite length_fmap; auto.
Qed.
End Ingestion.

(** ** The in-memory store obeys the laws *)

Section MemLaws.
Variable embed_ : list string -> ServiceError + list (list Z).
Variable report_ : Z -> CollectionInfo.
Variable debug_ : bool.

Lemma mem_names_of (s : gmap string Mem.Collection) :
  names_of (X := Mem.collaborators embed_ report_ debug_) s = (map_to_list s).*1.
Proof.
  unfold names_of. cbn. unfold Mem.get_collections. cbn.
  rewrite <- list_fmap_compose. reflexivity.
Qed.

Lemma mem_listed (s : gmap string Mem.Collection) (name : string) :
  name ∈ (map_to_list s).*1 <-> is_Some (s !! name).
Proof.
  rewrite list_elem_of_fmap. split.
  - intros ([k col] & -> & Hin). apply elem_of_map_to_list in Hin. eauto.
  - intros [col Hcol]. exists (name, col). split; [reflexivity |].
    now apply elem_of_map_to_list.
Qed.

Lemma mem_store_laws :
  StoreLaws (X := Mem.collaborators embed_ report_ debug_).
Proof.
  split.
  - intros s. eexists. split; [reflexivity |]. cbn.
    rewrite <- list_fmap_compose. apply (NoDup_fst_map_to_list s).
  - intros s name. rewrite mem_names_of, mem_listed. intros [col Hcol].
    cbn. unfold Mem.get_collection. rewrite Hcol. eauto.
  - intros s name _. cbn. unfold Mem.drop_collection. eauto.
  - intros s name s' Hdelete other. cbn in Hdelete.
    unfold Mem.drop_collection in Hdelete. simplify_eq.
    rewrite !mem_names_of, !mem_listed.
    destruct (decide (other = name)) as [-> | Hne].
    + rewrite lookup_delete_eq. split; [intros [? ?]; discriminate | tauto].
    + rewrite lookup_delete_ne by congruence. tauto.
  - intros s name s' Hdelete other Hne. cbn in Hdelete.
    unfold Mem.drop_collection in Hdelete. simplify_eq.
    cbn. unfold Mem.get_collection. now rewrite lookup_delete_ne by congruence.
  - intros s name s' Hdelete other v f k sp Hne. cbn in Hdelete.
    unfold Mem.drop_collection in Hdelete. simplify_eq.
    cbn. unfold Mem.search. now rewrite lookup_delete_ne by congruence.
Qed.

Lemma mem_search_respects_nonnegative_limit :
  search_respects_nonnegative_limit (X := Mem.collaborators embed_ report_ debug_).
Proof.
  intros name v f limit sp s result Hlimit Hresult.
  cbn in Hresult. unfold Mem.search in Hresult.
  repeat case_match; simplify_eq.
  rewrite length_fmap, length_take. lia.
Qed.

Lemma dom_foldl_insert {A} (l : list (string * A)) (m : gmap string A) :
  dom (foldl (fun m entry => <[entry.1 := entry.2]> m) m l)
  = list_to_set l.*1 ∪ dom m.
Proof.
  revert m. induction l as [| entry l IH]; intros m; cbn.
  - set_solver.
  - rewrite IH, dom_insert_L. set_solver.
Qed.

Lemma fst_zip_take {A B} (l : list A) (k : list B) :
  (zip l k).*1 = take (length k) l.
Proof.
  revert k. induction l as [| a l IH]; intros [| b k]; cbn; try reflexivity.
  now rewrite IH.
Qed.

Lemma size_put_points_again (b1 b2 : Batch) (pts : gmap string (list Z * Document)) :
  ids b2 = ids b1 ->
  length (vectors b2) = length (vectors b1) ->
  length (payloads b2) = length (payloads b1) ->
  size (Mem.put_points b2 (Mem.put_points b1 pts)) = size (Mem.put_points b1 pts).
Proof.
  intros Hids Hvectors Hpayloads.
  rewrite <- !size_dom. f_equal. unfold Mem.put_points.
  rewrite !dom_foldl_insert, !fst_zip_take, !length_zip_with.
  rewrite Hids, Hvectors, Hpayloads. set_solver.
Qed.

Lemma mem_upsert_by_id :
  upsert_by_id (X := Mem.collaborators embed_ report_ debug_).
Proof.
  intros s s1 name b1 b2 Hids Hvectors Hpayloads Hfirst.
  cbn in *. unfold Mem.upsert in *.
  case_match; simplify_eq. rewrite lookup_insert_eq. cbn.
  eexists. split; [reflexivity |].
  intros info1. unfold Mem.get_collection. rewrite !lookup_insert_eq. cbn.
  intros Hinfo. simplify_eq. eexists. split; [reflexivity |].
  now rewrite size_put_points_again.
Qed.
End MemLaws.

(** ** The theorems at work on the in-memory store *)

#[local] Existing Instance Mem.domain.
#[local] Existing Instance Mem.env.

Lemma similar_texts_pairs_follow_matches_witness :
  let st := Mem.adapter Mem.embed Mem.report false (Mem.named "docs") Mem.store_docs in
  (similar_texts_with_scores "hello" 1 None st).1 = inr [(Mem.doc "hello", 26)]
  /\ exists name v vs f matches,
       collection_name (config st) = Some name
       /\ embedding_fn [ "hello" ] = inr (v :: vs)
       /\ filter_of None = inr f
       /\ client_search name v f 1 search_params (client st) = inr (Some <$> matches)
       /\ Forall2 pair_built_from_match matches [(Mem.doc "hello", 26)].
Proof.
  cbn zeta. split; [vm_compute; reflexivity |].
  apply (similar_texts_pairs_follow_matches "hello" 1 None
           (Mem.adapter Mem.embed Mem.report false (Mem.named "docs") Mem.store_docs)
           (similar_texts_with_scores "hello" 1 None
              (Mem.adapter Mem.embed Mem.report false (Mem.named "docs")
                 Mem.store_docs)).2).
  vm_compute. reflexivity.
Defined.

Lemma similar_texts_at_most_k_witness :
  let st := Mem.adapter Mem.embed Mem.report false (Mem.named "docs") Mem.store_docs in
  let st0 := Mem.adapter Mem.embed Mem.report false (Mem.named "scratch")
               Mem.store_docs_scratch in
  (similar_texts_with_scores "hello" 1 None st).1 = inr [(Mem.doc "hello", 26)]
  /\ (exists name v vs f answer,
        collection_name (config st) = Some name
        /\ embedding_fn [ "hello" ] = inr (v :: vs)
        /\ filter_of None = inr f
        /\ client_search name v f 1 search_params (client st) = inr answer
        /\ length [(Mem.doc "hello", 26)] = length answer)
  /\ at_most_k_pairs 1 (similar_texts_with_scores "hello" 1 None st)
  /\ similar_texts_with_scores "hello" 1 None st0 =
       (inr [],
        journalled (LogWarningNoMatches "hello")
          (journalled (Search "scratch" [5; 1] None 1 search_params)
             (journalled (EmbedCall ["hello"]) st0))).
Proof.
  cbn zeta.
  destruct (similar_texts_at_most_k "hello" 1 None
              (Mem.adapter Mem.embed Mem.report false (Mem.named "docs")
                 Mem.store_docs))
    as (Hcount & Hbound & _).
  destruct (similar_texts_at_most_k "hello" 1 None
              (Mem.adapter Mem.embed Mem.report false (Mem.named "scratch")
                 Mem.store_docs_scratch))
    as (_ & _ & Hnone).
  split; [vm_compute; reflexivity |]. split; [| split].
  - apply (Hcount [(Mem.doc "hello", 26)]
             (similar_texts_with_scores "hello" 1 None
                (Mem.adapter Mem.embed Mem.report false (Mem.named "docs")
                   Mem.store_docs)).2).
    vm_compute. reflexivity.
  - apply Hbound; [lia |].
    exact (mem_search_respects_nonnegative_limit Mem.embed Mem.report false).
  - apply (Hnone "scratch" [5; 1] [] None); vm_compute; reflexivity.
Defined.

(** C6, as worded for every [k], fails for a negative [k]: the store
    answers a negative limit with no match, the search returns the empty
    list, and zero pairs are more than [k].  And the bound is the
    client's: a client that answers with two matches to a limit of one
    gets two pairs back from the adapter. *)
Lemma similar_texts_more_pairs_than_k :
  let st := Mem.adapter Mem.embed Mem.report false (Mem.named "docs") Mem.store_docs in
  let st2 := Mem.adapter_answering Mem.embed Mem.answer_of_two (Mem.named "docs")
               Mem.store_docs in
  ~ at_most_k_pairs (-1) (similar_texts_with_scores "hello" (-1) None st)
  /\ (similar_texts_with_scores "hello" (-1) None st).1 = inr []
  /\ ~ at_most_k_pairs 1
         (similar_texts_with_scores (X := Mem.answering Mem.embed Mem.answer_of_two)
            "hello" 1 None st2).
Proof.
  cbn zeta. split; [| split].
  - intros Hbound. specialize (Hbound [] eq_refl). cbn in Hbound. lia.
  - vm_compute. reflexivity.
  - intros Hbound.
    specialize (Hbound
      [({| content := "hello"; metadata := [] |}, 26);
       ({| content := "hi"; metadata := [] |}, 11)] eq_refl).
    cbn in Hbound. lia.
Qed.

Lemma clear_empty_collections_sweeps_witness :
  let st := Mem.adapter Mem.embed Mem.report false default_config
              Mem.store_docs_scratch in
  (clear_empty_collections st).1 = inr 1
  /\ names_of (client st) = ["scratch"; "docs"]
  /\ names_of (client (clear_empty_collections st).2) = ["docs"]
  /\ exists c',
       clear_empty_collections st =
         (inr (Z.of_nat (length (empties (client st) (names_of (client st))))),
          {| config := config st;
             client := c';
             embedding_dim := embedding_dim st;
             journal :=
               journal st
                 ++ GetCollections
                 :: sweep_calls (client st) (names_of (client st)) |})
       /\ (forall name,
             name ∈ names_of c' <->
             name ∈ names_of (client st)
             /\ name ∉ empties (client st) (names_of (client st)))
       /\ (forall name,
             name ∉ empties (client st) (names_of (client st)) ->
             untouched name (client st) c').
Proof.
  cbn zeta. repeat (split; [vm_compute; reflexivity |]).
  exact (clear_empty_collections_sweeps
           (Mem.adapter Mem.embed Mem.report false default_config
              Mem.store_docs_scratch)
           (mem_store_laws Mem.embed Mem.report false)).
Defined.



(** ** Further runs on the in-memory store *)


Lemma create_collection_keeps_recreated_store_witness :
  let alarmed := Mem.adapter Mem.embed
                   (fun n => {| status := YELLOW; vectors_count := n; points_count := n |})
                   false default_config Mem.store_docs in
  (create_collection "docs" alarmed).1 = inl AssertionError
  /\ client (create_collection "docs" alarmed).2 =
       <[ "docs" := {| Mem.params := {| vp_size := 2; vp_distance := COSINE |};
                       Mem.points := ∅ |} ]> Mem.store_docs.
Proof.
  cbn zeta. split; [vm_compute; reflexivity |].
  apply (create_collection_keeps_recreated_store "docs"
           (Mem.adapter Mem.embed
              (fun n => {| status := YELLOW; vectors_count := n; points_count := n |})
              false default_config Mem.store_docs)).
  reflexivity.
Defined.


Lemma clear_empty_collections_counts_its_deletions_witness :
  let st := Mem.adapter Mem.embed Mem.report false default_config
              Mem.store_docs_scratch in
  (clear_empty_collections st).1 = inr 1
  /\ exists calls,
       journal (clear_empty_collections st).2 = journal st ++ GetCollections :: calls
       /\ Forall (lookup_or_delete_of (names_of (client st))) calls
       /\ deletes_follow_lookups (Some GetCollections) calls
       /\ (forall name, DeleteCollection name ∈ calls -> name ∈ names_of (client st))
       /\ 1 = Z.of_nat (count_deletes calls).
Proof.
  cbn zeta. split; [vm_compute; reflexivity |].
  destruct (clear_empty_collections_counts_its_deletions
              (Mem.adapter Mem.embed Mem.report false default_config
                 Mem.store_docs_scratch))
    as (calls & Hjournal & Hcalls & Hwf & Hnames & Hcount).
  exists calls. split; [exact Hjournal |]. split; [exact Hcalls |].
  split; [exact Hwf |].
  split; [exact Hnames |]. apply Hcount. vm_compute. reflexivity.
Defined.

Lemma clear_empty_collections_none_empty_witness :
  let st := Mem.adapter Mem.embed Mem.report false default_config Mem.store_docs in
  clear_empty_collections st =
    (inr 0, after_calls [GetCollections; GetCollection "docs"] Mem.store_docs st).
Proof.
  cbn zeta.
  apply (clear_empty_collections_none_empty
           (Mem.adapter Mem.embed Mem.report false default_config Mem.store_docs)
           {| collections := [ {| cd_name := "docs" |} ] |}).
  - reflexivity.
  - intros name Hname. apply list_elem_of_singleton in Hname. subst name.
    exists (Mem.report 1). split; [reflexivity | discriminate].
Defined.

Lemma search_fails_before_the_client_witness :
  let mute := Mem.adapter (fun _ => inr []) Mem.report false (Mem.named "docs")
                Mem.store_docs in
  let st := Mem.adapter_answering Mem.embed [] (Mem.named "docs") Mem.store_docs in
  similar_texts_with_scores (X := Mem.collaborators (fun _ => inr []) Mem.report false)
      "hello" 1 None mute =
    (inl IndexError, journalled (EmbedCall ["hello"]) mute)
  /\ similar_texts_with_scores (X := Mem.answering Mem.embed []) "hello" 1 (Some "") st =
       (inl (Propagated "Invalid filter"), journalled (EmbedCall ["hello"]) st).
Proof.
  cbn zeta. split.
  - exact (proj1 (search_fails_before_the_client "hello" 1 None
                    (Mem.adapter (fun _ => inr []) Mem.report false (Mem.named "docs")
                       Mem.store_docs))
             eq_refl).
  - exact (proj2 (search_fails_before_the_client "hello" 1 (Some "")
                    (Mem.adapter_answering Mem.embed [] (Mem.named "docs")
                       Mem.store_docs))
             ([5; 1] : list Z) [] "Invalid filter" eq_refl eq_refl).
Defined.

Lemma search_answer_with_none_raises_witness :
  let st := Mem.adapter_answering Mem.embed Mem.answer_with_none (Mem.named "docs")
              Mem.store_docs in
  similar_texts_with_scores (X := Mem.answering Mem.embed Mem.answer_with_none)
      "hello" 2 None st =
    (inl AttributeError,
     journalled (X := Mem.answering Mem.embed Mem.answer_with_none)
       (Search "docs" [5; 1] None 2 search_params)
       (journalled (EmbedCall ["hello"]) st)).
Proof.
  cbn zeta.
  apply (search_answer_with_none_raises (D := Mem.domain)
           (X := Mem.answering Mem.embed Mem.answer_with_none)
           "hello" 2 None
           (Mem.adapter_answering Mem.embed Mem.answer_with_none (Mem.named "docs")
              Mem.store_docs)
           "docs" [5; 1] [] None Mem.answer_with_none);
    try reflexivity.
  right. left.
Defined.

Lemma search_bad_payload_raises_witness :
  let st := Mem.adapter_answering Mem.embed Mem.answer_with_bare (Mem.named "docs")
              Mem.store_docs in
  (similar_texts_with_scores (X := Mem.answering Mem.embed Mem.answer_with_bare)
     "hello" 2 None st).1 = inl TypeError
  /\ exists e,
       similar_texts_with_scores (X := Mem.answering Mem.embed Mem.answer_with_bare)
           "hello" 2 None st =
         (inl e,
          journalled (X := Mem.answering Mem.embed Mem.answer_with_bare)
            (Search "docs" [5; 1] None 2 search_params)
            (journalled (EmbedCall ["hello"]) st))
       /\ (e = TypeError \/ e = ValidationError).
Proof.
  cbn zeta. split; [vm_compute; reflexivity |].
  apply (search_bad_payload_raises (D := Mem.domain)
           (X := Mem.answering Mem.embed Mem.answer_with_bare)
           "hello" 2 None
           (Mem.adapter_answering Mem.embed Mem.answer_with_bare (Mem.named "docs")
              Mem.store_docs)
           "docs" [5; 1] [] None [Mem.hit_hello; Mem.hit_bare]);
    try reflexivity.
  right. left. intros d Hd. discriminate Hd.
Defined.
